(** * EasyTED: the tree-edit-distance calculator of [easyted/ted.py]

    A shallow embedding of [TreeEditDistanceCalculator]: the label
    stripping and cleaning of bracket strings, the depth-limited
    rendering of a constituency tree, the argument validation and the
    pipeline of [calculate_ted].

    Python strings are sequences of code points; a code point is an [N].
    Python ints are [Z].  Exceptions are values of [exn]; a computation
    that may raise returns a [result]. *)

From Stdlib Require Import Ascii String.
From Stdlib Require Import List Bool Arith NArith ZArith Lia.
Import ListNotations.

Set Implicit Arguments.
Set Warnings "-register-all".

(* ================================================================== *)
(** ** Python strings *)

Module PyStr.

Abbreviation char := N (only parsing).
Abbreviation pystr := (list N) (only parsing).

(** A literal: the code points of an ASCII string. *)
Definition lit (s : string) : pystr :=
  List.map N_of_ascii (list_ascii_of_string s).

Definition LPAREN : char := 40%N.
Definition RPAREN : char := 41%N.
Definition LBRACE : char := 123%N.
Definition RBRACE : char := 125%N.
Definition SPACE : char := 32%N.
Definition DOLLAR : char := 36%N.
Definition NEWLINE : char := 10%N.

Fixpoint str_eqb (a b : pystr) : bool :=
  match a, b with
  | [], [] => true
  | x :: a', y :: b' => N.eqb x y && str_eqb a' b'
  | _, _ => false
  end.

(** The class [[A-Z$]] of the label pattern. *)
Definition is_label_char (c : char) : bool :=
  ((65 <=? c) && (c <=? 90))%N || N.eqb c DOLLAR.

(** The class [\s] of a [str] pattern: the code points for which
    [str.isspace] holds. *)
Definition is_space (c : char) : bool :=
  (((9 <=? c) && (c <=? 13)) || ((28 <=? c) && (c <=? 32))
   || N.eqb c 133 || N.eqb c 160 || N.eqb c 5760
   || ((8192 <=? c) && (c <=? 8202))
   || N.eqb c 8232 || N.eqb c 8233 || N.eqb c 8239
   || N.eqb c 8287 || N.eqb c 12288)%N.

Definition no_space (c : char) : bool := negb (is_space c).

(** Length of the longest prefix whose characters satisfy [p]: what a
    greedy [[...]*] consumes. *)
Fixpoint run_length (p : char -> bool) (s : pystr) : nat :=
  match s with
  | c :: r => if p c then S (run_length p r) else 0
  | [] => 0
  end.

(** [re.sub(pattern, repl, s)] for a pattern that never matches the empty
    string.  [matcher s] is the length of the match of the pattern at the
    start of [s], if there is one.  The scan goes left to right; [skip]
    counts the characters of the current match still to be consumed, so
    that matches do not overlap. *)
Fixpoint re_sub_from (matcher : pystr -> option nat) (repl : pystr)
         (skip : nat) (s : pystr) : pystr :=
  match s with
  | [] => []
  | c :: r =>
      match skip with
      | S k => re_sub_from matcher repl k r
      | O =>
          match matcher s with
          | Some (S n) => repl ++ re_sub_from matcher repl n r
          | _ => c :: re_sub_from matcher repl 0 r
          end
      end
  end.

Definition re_sub (matcher : pystr -> option nat) (repl s : pystr) : pystr :=
  re_sub_from matcher repl 0 s.

(** The pattern [\([A-Z$]+ ]: an opening parenthesis, a greedy non-empty
    run of label characters, one space.  The space is not a label
    character, so backtracking into the run cannot produce a match. *)
Definition match_label (s : pystr) : option nat :=
  match s with
  | c :: r =>
      if N.eqb c LPAREN then
        let n := run_length is_label_char r in
        match n, skipn n r with
        | S _, d :: _ => if N.eqb d SPACE then Some (S (S n)) else None
        | _, _ => None
        end
      else None
  | [] => None
  end.

(** The pattern [\s+]. *)
Definition match_spaces (s : pystr) : option nat :=
  match run_length is_space s with
  | O => None
  | n => Some n
  end.

(** [s.replace(old, new)] for one-character [old] and [new]. *)
Definition replace_char (old new : char) (s : pystr) : pystr :=
  List.map (fun c => if N.eqb c old then new else c) s.

(** [sep.join(parts)]. *)
Fixpoint join (sep : pystr) (parts : list pystr) : pystr :=
  match parts with
  | [] => []
  | [p] => p
  | p :: ps => p ++ sep ++ join sep ps
  end.

End PyStr.
Import PyStr.

(* ================================================================== *)
(** ** Label stripping and cleaning ([ted.py], lines 43-55 and 96-108) *)

(** [remove_non_terminal_labels]. *)
Definition remove_non_terminal_labels (tree_string : pystr) : pystr :=
  let cleaned_tree_string := re_sub match_label [LPAREN] tree_string in
  let cleaned_tree_string := re_sub match_spaces [] cleaned_tree_string in
  cleaned_tree_string.

(** [clean_string]. *)
Definition clean_string (tree_string : pystr) : pystr :=
  let cleaned_tree_string := remove_non_terminal_labels tree_string in
  let bracket_string :=
    replace_char LPAREN LBRACE (replace_char RPAREN RBRACE cleaned_tree_string) in
  bracket_string.

(* ================================================================== *)
(** ** Python values, exceptions and results *)

(** The exceptions that occur.  [TypeError] is raised by the argument
    checks of [calculate_ted] and by comparing an int with a str;
    [AttributeError] by calling [label()] on a str; [IndexError] by
    [doc.sentences[0]] on an empty list.  [FormatError] is the error
    kind that the specification gives to its parser.  [OtherError] is
    any other exception of a collaborator. *)
Inductive exn : Type :=
| TypeError
| AttributeError
| IndexError
| FormatError
| OtherError (name : string).

Inductive result (A : Type) : Type :=
| Ok (a : A)
| Err (e : exn).
Arguments Ok {A} a.
Arguments Err {A} e.

(** The values an argument of [calculate_ted] can be.  A [bool] is an
    [int] in Python and is represented by [PyInt 0] or [PyInt 1];
    [PyOther] is an object that is neither [None], an int nor a str and
    is not ordered against ints. *)
Inductive pyval : Type :=
| PyNone
| PyInt (z : Z)
| PyStr (s : pystr)
| PyOther.

Definition isinstance_str (v : pyval) : bool :=
  match v with PyStr _ => true | _ => false end.

Definition isinstance_int (v : pyval) : bool :=
  match v with PyInt _ => true | _ => false end.

(** [v < 0], evaluated only where [v] is an int. *)
Definition lt_zero (v : pyval) : bool :=
  match v with PyInt z => (z <? 0)%Z | _ => false end.

(** [v == 'full']. *)
Definition eq_full (v : pyval) : bool :=
  match v with PyStr s => str_eqb s (lit "full") | _ => false end.

(* ================================================================== *)
(** ** NLTK trees, as the renderer uses them *)

(** A child of an NLTK tree is a tree or a str (a leaf token). *)
Inductive nltk : Type :=
| Leaf (token : pystr)
| Tree (label : pystr) (children : list nltk).

(** [tree.height()]: a str child counts 1, a tree one more than its
    highest child. *)
Fixpoint height (t : nltk) : nat :=
  match t with
  | Leaf _ => 1
  | Tree _ cs =>
      S ((fix max_child_height (l : list nltk) : nat :=
            match l with
            | [] => 0
            | c :: r => Nat.max (height c) (max_child_height r)
            end) cs)
  end.

(** [tree.leaves()]: the tokens below the node, left to right. *)
Fixpoint leaves (t : nltk) : list pystr :=
  match t with
  | Leaf tok => [tok]
  | Tree _ cs =>
      (fix go (l : list nltk) : list pystr :=
         match l with
         | [] => []
         | c :: r => leaves c ++ go r
         end) cs
  end.

(** [current_depth > max_depth], reached only when [max_depth] is not
    [None]. *)
Definition int_gt (current_depth : Z) (max_depth : pyval) : result bool :=
  match max_depth with
  | PyInt m => Ok (m <? current_depth)%Z
  | _ => Err TypeError
  end.

(** [max_depth is not None and current_depth > max_depth]. *)
Definition past_max_depth (max_depth : pyval) (current_depth : Z) : result bool :=
  match max_depth with
  | PyNone => Ok false
  | _ => int_gt current_depth max_depth
  end.

(** [nltk_tree_to_n_bracket_string] ([ted.py], lines 72-94).  The
    argument is a tree at the first call and whatever the iteration over
    a tree yields in the recursive calls.  [not tree] holds of the empty
    str and of a tree without children; a non-empty str has no
    [label()]. *)
Fixpoint nltk_tree_to_n_bracket_string (tree : nltk) (max_depth : pyval)
         (current_depth : Z) {struct tree} : result pystr :=
  match past_max_depth max_depth current_depth with
  | Err e => Err e
  | Ok true => Ok []
  | Ok false =>
      match tree with
      | Leaf [] => Ok []
      | Leaf _ => Err AttributeError
      | Tree _ [] => Ok []
      | Tree label children =>
          let tree_string := [LPAREN] ++ label ++ [SPACE] in
          if 2 <? height tree then
            (fix for_children (l : list nltk) (tree_string : pystr)
               : result pystr :=
               match l with
               | [] => Ok (tree_string ++ [RPAREN])
               | child :: rest =>
                   match nltk_tree_to_n_bracket_string
                           child max_depth (current_depth + 1) with
                   | Ok s => for_children rest (tree_string ++ s)
                   | Err e => Err e
                   end
               end) children tree_string
          else
            Ok (tree_string ++ join [SPACE] (leaves tree) ++ [RPAREN])
      end
  end.

(** The loop over the children, with the rendering of a child as a
    parameter. *)
Fixpoint for_children (render : nltk -> result pystr) (l : list nltk)
         (tree_string : pystr) : result pystr :=
  match l with
  | [] => Ok (tree_string ++ [RPAREN])
  | child :: rest =>
      match render child with
      | Ok s => for_children render rest (tree_string ++ s)
      | Err e => Err e
      end
  end.

Definition t_ab : nltk :=
  Tree (lit "S") [Tree (lit "NP") [Tree (lit "DT") [Leaf (lit "a")]];
                  Tree (lit "VP") [Tree (lit "V") [Leaf (lit "b")]]].

Definition t_ac : nltk :=
  Tree (lit "S") [Tree (lit "NP") [Tree (lit "DT") [Leaf (lit "a")]];
                  Tree (lit "VP") [Tree (lit "V") [Leaf (lit "c")]]].

(* ================================================================== *)
(** ** The edit-distance engine *)

(** A node of [apted.helpers.Tree]: a name and the list of children. *)
Inductive atree : Type :=
| ANode (name : pystr) (children : list atree).

Definition forest := list atree.

(** Number of nodes. *)
Fixpoint tsize (t : atree) : nat :=
  match t with
  | ANode _ cs =>
      S ((fix go (l : list atree) : nat :=
            match l with
            | [] => 0
            | c :: r => tsize c + go r
            end) cs)
  end.

Fixpoint fsize (F : forest) : nat :=
  match F with
  | [] => 0
  | t :: r => tsize t + fsize r
  end.

(** The default costs: insert 1, delete 1, rename 0 for equal labels and
    1 otherwise. *)
Definition insert_cost : nat := 1.
Definition delete_cost : nat := 1.
Definition rename_cost (a b : pystr) : nat :=
  if str_eqb a b then 0 else 1.

(** Modelled from the spec: the Edit Distance Engine of section 4.3.  The
    repository calls [apted.APTED(...).compute_edit_distance()], whose
    code is not under src/.  This is the recurrence of item 2 in its
    forest form, on the leftmost roots [v] of [F] and [w] of [G]: delete
    [v] (its children take its place), insert [w], or rename [v] to [w]
    and match the children of [v] with those of [w] and the remaining
    trees with each other.  Against the empty forest every node is
    inserted or deleted.  [fuel] bounds the depth of the recursion. *)
Fixpoint forest_dist (fuel : nat) (F G : forest) : nat :=
  match F, G with
  | [], _ => fsize G * insert_cost
  | _, [] => fsize F * delete_cost
  | ANode v C :: F', ANode w D :: G' =>
      match fuel with
      | O => 0
      | S n =>
          Nat.min (forest_dist n (C ++ F') G + delete_cost)
            (Nat.min (forest_dist n F (D ++ G') + insert_cost)
               (forest_dist n C D + forest_dist n F' G' + rename_cost v w))
      end
  end.

(** Modelled from the spec: the distance of two trees, the engine's
    result; the fuel is the number of nodes of both trees, which the
    recursion never exhausts ([forest_dist_fuel] below). *)
Definition compute_edit_distance (t1 t2 : atree) : nat :=
  forest_dist (tsize t1 + tsize t2) [t1] [t2].

(** The distance of two forests, with the fuel it needs. *)
Definition fdist (F G : forest) : nat := forest_dist (fsize F + fsize G) F G.

(** Modelled from the spec: the ordered-tree edit model of section 4.3 and
    of the glossary, which the engine's result is compared with.  One
    operation on a forest, with its cost: delete a node (its children
    take its place among its siblings), insert a node (a run of
    consecutive siblings becomes its children), rename a node; at the
    leftmost root, inside the leftmost tree, or further right. *)
Inductive edit_step : forest -> forest -> nat -> Prop :=
| step_delete : forall v C R,
    edit_step (ANode v C :: R) (C ++ R) delete_cost
| step_insert : forall w D R,
    edit_step (D ++ R) (ANode w D :: R) insert_cost
| step_rename : forall v w C R,
    edit_step (ANode v C :: R) (ANode w C :: R) (rename_cost v w)
| step_below : forall v C C' R c,
    edit_step C C' c -> edit_step (ANode v C :: R) (ANode v C' :: R) c
| step_right : forall t R R' c,
    edit_step R R' c -> edit_step (t :: R) (t :: R') c.

(** A sequence of operations and its total cost. *)
Inductive edit_script : forest -> forest -> nat -> Prop :=
| script_nil : forall F, edit_script F F 0
| script_cons : forall F G H c d,
    edit_step F G c -> edit_script G H d -> edit_script F H (c + d).

(* ================================================================== *)
(** ** The parser of bracketed text *)

Inductive token : Type :=
| TOpen
| TClose
| TWord (w : pystr).

Definition flush (word : pystr) : list token :=
  match word with
  | [] => []
  | _ => [TWord word]
  end.

(** Modelled from the spec: the tokens of the bracketed text grammar of
    section 6 (the repository parses with [nltk.tree.Tree.fromstring],
    whose code is not under src/).  The text is whitespace-delimited:
    parentheses are tokens of their own, whitespace separates words and
    is otherwise insignificant.  [word] is the word being read. *)
Fixpoint tokenize_from (word : pystr) (s : pystr) : list token :=
  match s with
  | [] => flush word
  | c :: r =>
      if N.eqb c LPAREN then flush word ++ TOpen :: tokenize_from [] r
      else if N.eqb c RPAREN then flush word ++ TClose :: tokenize_from [] r
      else if is_space c then flush word ++ tokenize_from [] r
      else tokenize_from (word ++ [c]) r
  end.

Definition tokenize (s : pystr) : list token := tokenize_from [] s.

(** An open node: its label once read, and its children so far, last
    first. *)
Record frame : Type := Frame {
  frame_label : option pystr;
  frame_children : list nltk
}.

Record parser : Type := Parser {
  open_nodes : list frame;       (* innermost first *)
  finished : option nltk         (* the tree, once its last ')' is read *)
}.

Definition parser_init : parser := Parser [] None.

(** Modelled from the spec: one token of [tree := '(' LABEL (tree | TOKEN)+ ')']
    of section 6, with the failures of sections 4.2 and 7: a label missing
    after an opening parenthesis, a closing parenthesis that closes
    nothing, an empty node, text outside the one tree. *)
Definition parse_token (st : parser) (tok : token) : result parser :=
  match tok with
  | TOpen =>
      match finished st, open_nodes st with
      | Some _, _ => Err FormatError
      | None, Frame None _ :: _ => Err FormatError
      | None, stack => Ok (Parser (Frame None [] :: stack) None)
      end
  | TWord w =>
      match open_nodes st with
      | [] => Err FormatError
      | Frame None ks :: stack =>
          Ok (Parser (Frame (Some w) ks :: stack) (finished st))
      | Frame (Some l) ks :: stack =>
          Ok (Parser (Frame (Some l) (Leaf w :: ks) :: stack) (finished st))
      end
  | TClose =>
      match open_nodes st with
      | [] => Err FormatError
      | Frame None _ :: _ => Err FormatError
      | Frame (Some _) [] :: _ => Err FormatError
      | Frame (Some l) ks :: stack =>
          let t := Tree l (rev ks) in
          match stack with
          | [] => Ok (Parser [] (Some t))
          | Frame pl pks :: stack' =>
              Ok (Parser (Frame pl (t :: pks) :: stack') (finished st))
          end
      end
  end.

Fixpoint parse_tokens (st : parser) (toks : list token) : result parser :=
  match toks with
  | [] => Ok st
  | tok :: rest =>
      match parse_token st tok with
      | Ok st' => parse_tokens st' rest
      | Err e => Err e
      end
  end.

(** Modelled from the spec: [parse(text)] of section 4.2.  It yields the
    tree of a text that is exactly one [tree] of the grammar and fails
    with [FormatError] otherwise: on unbalanced parentheses, on a missing
    label and on empty input. *)
Definition parse (text : pystr) : result nltk :=
  match parse_tokens parser_init (tokenize text) with
  | Ok (Parser [] (Some t)) => Ok t
  | Ok _ => Err FormatError
  | Err e => Err e
  end.

(** The nesting depth after [s], starting from depth [d]; [None] when a
    closing parenthesis closes nothing. *)
Fixpoint nesting (d : nat) (s : pystr) : option nat :=
  match s with
  | [] => Some d
  | c :: r =>
      if N.eqb c LPAREN then nesting (S d) r
      else if N.eqb c RPAREN then
        match d with
        | O => None
        | S d' => nesting d' r
        end
      else nesting d r
  end.

(** Balanced parentheses: every closing one closes an open one, and none
    stays open. *)
Definition balanced (s : pystr) : bool :=
  match nesting 0 s with
  | Some O => true
  | _ => false
  end.

(** The same on tokens. *)
Fixpoint token_nesting (d : nat) (toks : list token) : option nat :=
  match toks with
  | [] => Some d
  | TOpen :: r => token_nesting (S d) r
  | TClose :: r =>
      match d with
      | O => None
      | S d' => token_nesting d' r
      end
  | TWord _ :: r => token_nesting d r
  end.

(* ================================================================== *)
(** ** Calls to the collaborators *)

(** What a run does outside the class: the runs of the stanza pipeline,
    the parses of a bracket string by NLTK and by APTED, and the run of
    the distance engine, in the order in which they happen. *)
Inductive event : Type :=
| EvPipeline (sentence : pystr)
| EvFromString (text : pystr)
| EvFromText (text : pystr)
| EvDistance (t1 t2 : atree).

(** A computation: the calls made, and the value returned or the
    exception raised. *)
Definition M (A : Type) : Type := (list event * result A)%type.

Definition ret {A} (a : A) : M A := ([], Ok a).

Definition lift {A} (r : result A) : M A := ([], r).

Definition call {A} (ev : event) (r : result A) : M A := ([ev], r).

Definition bind {A B} (m : M A) (k : A -> M B) : M B :=
  match m with
  | (log, Ok a) => let (log', r) := k a in (log ++ log', r)
  | (log, Err e) => (log, Err e)
  end.

Declare Scope ted_scope.
Delimit Scope ted_scope with ted.
Notation "x <- m ;; k" := (bind m (fun x => k))
  (at level 61, m at next level, right associativity) : ted_scope.

Definition calls {A} (m : M A) : list event := fst m.
Definition outcome {A} (m : M A) : result A := snd m.

(** The libraries the class works with.  [nlp sentence] stands for
    [self.nlp(sentence)] and yields the constituency trees of
    [doc.sentences]; [str_parse_tree] is [str] on such a tree;
    [fromstring] is [nltk.tree.Tree.fromstring]; [str_nltk] is [str] on
    an NLTK tree; [from_text] is [apted.helpers.Tree.from_text].  They
    are functions: the same argument gives the same result in every
    call. *)
Record Collaborators : Type := {
  ParseTree : Type;
  nlp : pystr -> result (list ParseTree);
  str_parse_tree : ParseTree -> pystr;
  fromstring : pystr -> result nltk;
  str_nltk : nltk -> pystr;
  from_text : pystr -> result atree
}.

Section Calculator.

Variable E : Collaborators.

Local Open Scope ted_scope.

(** [get_constituency_tree] ([ted.py], lines 29-41). *)
Definition get_constituency_tree (sentence : pystr) : M (ParseTree E) :=
  call (EvPipeline sentence)
       (match nlp E sentence with
        | Ok (first :: _) => Ok first
        | Ok [] => Err IndexError
        | Err e => Err e
        end).

(** [nltk_tree_to_bracket_string] ([ted.py], lines 57-70). *)
Definition nltk_tree_to_bracket_string (tree : nltk) : pystr :=
  let tree_string := str_nltk E tree in
  let cleaned_tree_string := remove_non_terminal_labels tree_string in
  let bracket_string :=
    replace_char LPAREN LBRACE (replace_char RPAREN RBRACE cleaned_tree_string) in
  bracket_string.

(** The two argument checks of [calculate_ted] ([ted.py], lines 163-166). *)
Definition check_arguments (sent1 sent2 depth : pyval) : result unit :=
  if negb (isinstance_str sent1) || negb (isinstance_str sent2) then
    Err TypeError
  else if negb (isinstance_str depth || isinstance_int depth)
          || (isinstance_int depth && lt_zero depth) then
    Err TypeError
  else Ok tt.

(** [max_depth = None if depth == 'full' else depth] (line 174). *)
Definition max_depth_of (depth : pyval) : pyval :=
  if eq_full depth then PyNone else depth.

(** The bracket string of one tree (lines 176-177): the full rendering
    when [max_depth] is [None], the depth-limited one otherwise. *)
Definition tree_string_of (tree : nltk) (max_depth : pyval) : result pystr :=
  match max_depth with
  | PyNone => Ok (nltk_tree_to_bracket_string tree)
  | _ => nltk_tree_to_n_bracket_string tree max_depth 0
  end.

(** The sentence of a checked argument. *)
Definition sentence_of (v : pyval) : result pystr :=
  match v with
  | PyStr s => Ok s
  | _ => Err TypeError
  end.

(** [calculate_ted] ([ted.py], lines 151-185). *)
Definition calculate_ted (sent1 sent2 depth : pyval) : M nat :=
  _ <- lift (check_arguments sent1 sent2 depth) ;;
  s1 <- lift (sentence_of sent1) ;;
  s2 <- lift (sentence_of sent2) ;;
  cons_tree1 <- get_constituency_tree s1 ;;
  cons_tree2 <- get_constituency_tree s2 ;;
  let text1 := str_parse_tree E cons_tree1 in
  nltk_tree1 <- call (EvFromString text1) (fromstring E text1) ;;
  let text2 := str_parse_tree E cons_tree2 in
  nltk_tree2 <- call (EvFromString text2) (fromstring E text2) ;;
  let max_depth := max_depth_of depth in
  tree_string1 <- lift (tree_string_of nltk_tree1 max_depth) ;;
  tree_string2 <- lift (tree_string_of nltk_tree2 max_depth) ;;
  let tree_string1 := clean_string tree_string1 in
  let tree_string2 := clean_string tree_string2 in
  a1 <- call (EvFromText tree_string1) (from_text E tree_string1) ;;
  a2 <- call (EvFromText tree_string2) (from_text E tree_string2) ;;
  edit_distance <- call (EvDistance a1 a2) (Ok (compute_edit_distance a1 a2)) ;;
  ret edit_distance.

End Calculator.

(* ================================================================== *)
(** ** Sample collaborators *)

Module Sample.

(** [str] of a short NLTK tree: the tree on one line, the children
    separated by spaces. *)
Fixpoint pformat_flat (t : nltk) : pystr :=
  match t with
  | Leaf tok => tok
  | Tree label cs =>
      [LPAREN] ++ label ++
      (fix go (l : list nltk) : pystr :=
         match l with
         | [] => []
         | c :: r => [SPACE] ++ pformat_flat c ++ go r
         end) cs ++ [RPAREN]
  end.

(** A reader of brace notation: at ['{'] a node opens, the characters up
    to its first child are its name, at ['}'] it closes and the nodes
    closed inside it become its children. *)
Fixpoint read_braces (open : list (pystr * list atree)) (done : list atree)
         (s : pystr) : result atree :=
  match s with
  | [] =>
      match done with
      | t :: _ => Ok t
      | [] => Err IndexError
      end
  | c :: r =>
      if N.eqb c LBRACE then read_braces (([], []) :: open) done r
      else if N.eqb c RBRACE then
        match open with
        | [] => Err IndexError
        | (name, kids) :: [] => read_braces [] (done ++ [ANode name (rev kids)]) r
        | (name, kids) :: (pname, pkids) :: rest =>
            read_braces ((pname, ANode name (rev kids) :: pkids) :: rest) done r
        end
      else
        match open with
        | [] => Err IndexError
        | (name, kids) :: rest => read_braces ((name ++ [c], kids) :: rest) done r
        end
  end.

(** A pipeline that knows two sentences and finds no sentence in any
    other text. *)
Definition table (sentence : pystr) : result (list nltk) :=
  if str_eqb sentence (lit "a b") then Ok [t_ab]
  else if str_eqb sentence (lit "a c") then Ok [t_ac]
  else Ok [].

Definition collaborators : Collaborators := {|
  ParseTree := nltk;
  nlp := table;
  str_parse_tree := pformat_flat;
  fromstring := parse;
  str_nltk := pformat_flat;
  from_text := read_braces [] []
|}.

(** Collaborators whose pipeline hands the sentence on as the printed
    tree: a way to feed any text to the parser. *)
Definition echo : Collaborators := {|
  ParseTree := pystr;
  nlp := fun sentence => Ok [sentence];
  str_parse_tree := fun text => text;
  fromstring := parse;
  str_nltk := pformat_flat;
  from_text := read_braces [] []
|}.

End Sample.

(* ================================================================== *)
(** ** The other accessors *)

Section Accessors.

Variable E : Collaborators.

Local Open Scope ted_scope.

(** [get_bracketed_string] ([ted.py], lines 110-121).  The tree of the
    pipeline is handed to [nltk_tree_to_bracket_string] as it is, so the
    [str(tree)] of that method is [str] on the pipeline's tree. *)
Definition get_bracketed_string (sentence : pystr) : M pystr :=
  tree <- get_constituency_tree E sentence ;;
  let tree_string := str_parse_tree E tree in
  let cleaned_tree_string := remove_non_terminal_labels tree_string in
  let bracket_string :=
    replace_char LPAREN LBRACE (replace_char RPAREN RBRACE cleaned_tree_string) in
  ret bracket_string.

(** [get_nltk_tree] ([ted.py], lines 123-133). *)
Definition get_nltk_tree (sentence : pystr) : M (ParseTree E) :=
  get_constituency_tree E sentence.

End Accessors.

(* ================================================================== *)
(** ** Notions for the properties of the code *)

(** [a] is [b] with some characters left out. *)
Inductive subseq {A : Type} : list A -> list A -> Prop :=
| subseq_nil : subseq [] []
| subseq_take : forall x a b, subseq a b -> subseq (x :: a) (x :: b)
| subseq_skip : forall x a b, subseq a b -> subseq a (x :: b).

(** What [clean_string] makes of a character that it keeps: a brace for
    a parenthesis, the character itself otherwise. *)
Definition to_brace (c : char) : char :=
  if N.eqb c LPAREN then LBRACE
  else if N.eqb c RPAREN then RBRACE
  else c.

(** The kind of a call, and the kinds of the calls of a complete run of
    [calculate_ted], in their order. *)
Inductive kind : Type := KPipeline | KFromString | KFromText | KDistance.

Definition kind_of (ev : event) : kind :=
  match ev with
  | EvPipeline _ => KPipeline
  | EvFromString _ => KFromString
  | EvFromText _ => KFromText
  | EvDistance _ _ => KDistance
  end.

Definition complete_run : list kind :=
  [KPipeline; KPipeline; KFromString; KFromString; KFromText; KFromText;
   KDistance].

Definition is_ok {A} (r : result A) : bool :=
  match r with Ok _ => true | Err _ => false end.

(** No node higher than 2 has a non-empty str among its children, and the
    tree is not itself a non-empty str. *)
Fixpoint no_stray_token (t : nltk) : bool :=
  match t with
  | Leaf [] => true
  | Leaf _ => false
  | Tree _ cs => if 2 <? height t then forallb no_stray_token cs else true
  end.

(** A character of a token that is neither white space nor a
    parenthesis. *)
Definition token_char (c : char) : bool :=
  no_space c && negb (N.eqb c LPAREN) && negb (N.eqb c RPAREN).

Definition paren_free_char (c : char) : bool :=
  negb (N.eqb c LPAREN) && negb (N.eqb c RPAREN).

(** A label that the label pattern matches as a whole. *)
Definition strippable (label : pystr) : bool :=
  match label with
  | [] => false
  | _ => forallb is_label_char label
  end.

(** Every label is strippable and every token is made of token
    characters. *)
Fixpoint plain_tree (t : nltk) : bool :=
  match t with
  | Leaf tok => forallb token_char tok
  | Tree label cs => strippable label && forallb plain_tree cs
  end.

(** No label and no token has a parenthesis. *)
Fixpoint paren_free_tree (t : nltk) : bool :=
  match t with
  | Leaf tok => forallb paren_free_char tok
  | Tree label cs => forallb paren_free_char label && forallb paren_free_tree cs
  end.

(** The brace skeleton of a tree under a depth limit: a pair of braces
    for every node within the limit, the tokens of the nodes of height at
    most 2 one after the other, and no label. *)
Fixpoint skeleton (tree : nltk) (max_depth : pyval) (current_depth : Z)
         {struct tree} : pystr :=
  match past_max_depth max_depth current_depth with
  | Ok false =>
      match tree with
      | Leaf _ => []
      | Tree _ [] => []
      | Tree _ cs =>
          [LBRACE]
            ++ (if 2 <? height tree
                then concat (List.map (fun c => skeleton c max_depth (current_depth + 1)) cs)
                else concat (leaves tree))
            ++ [RBRACE]
      end
  | _ => []
  end.

(* ================================================================== *)
(** * Properties *)

(** ** Examples *)

Example strip_ex1 :
  remove_non_terminal_labels (lit "(S (NP (DT a)) (VP (V b)))") = lit "(((a))((b)))".
Proof. reflexivity. Qed.

Example clean_ex1 : clean_string (lit "(S )") = lit "{}".
Proof. reflexivity. Qed.

Example render_full_ab :
  nltk_tree_to_n_bracket_string t_ab PyNone 0 = Ok (lit "(S (NP (DT a))(VP (V b)))").
Proof. reflexivity. Qed.

Example render_1_ab :
  nltk_tree_to_n_bracket_string t_ab (PyInt 1) 0 = Ok (lit "(S (NP )(VP ))").
Proof. reflexivity. Qed.

Example ted_ex_rename :
  compute_edit_distance
    (ANode [] [ANode (lit "the") []; ANode (lit "cat") []])
    (ANode [] [ANode (lit "the") []; ANode (lit "dog") []]) = 1.
Proof. reflexivity. Qed.

Example ted_ex_insert :
  compute_edit_distance
    (ANode (lit "a") [ANode (lit "b") []])
    (ANode (lit "a") [ANode (lit "x") [ANode (lit "b") []]; ANode (lit "c") []]) = 2.
Proof. reflexivity. Qed.

Example parse_ab : parse (lit "(S (NP (DT a)) (VP (V b)))") = Ok t_ab.
Proof. reflexivity. Qed.

Example parse_multiline :
  parse (lit "(S" ++ [NEWLINE] ++ lit "  (NP a))")
  = Ok (Tree (lit "S") [Tree (lit "NP") [Leaf (lit "a")]]).
Proof. reflexivity. Qed.

Example sample_full :
  calculate_ted Sample.collaborators (PyStr (lit "a b")) (PyStr (lit "a c"))
                (PyStr (lit "full"))
  = ([EvPipeline (lit "a b"); EvPipeline (lit "a c");
      EvFromString (lit "(S (NP (DT a)) (VP (V b)))");
      EvFromString (lit "(S (NP (DT a)) (VP (V c)))");
      EvFromText (lit "{{{a}}{{b}}}"); EvFromText (lit "{{{a}}{{c}}}");
      EvDistance (ANode [] [ANode [] [ANode (lit "a") []];
                            ANode [] [ANode (lit "b") []]])
                 (ANode [] [ANode [] [ANode (lit "a") []];
                            ANode [] [ANode (lit "c") []]])],
     Ok 1).
Proof. vm_compute. reflexivity. Qed.

Example sample_depth0 :
  outcome (calculate_ted Sample.collaborators (PyStr (lit "a b"))
                         (PyStr (lit "a c")) (PyInt 0)) = Ok 0.
Proof. vm_compute. reflexivity. Qed.

(** ** Strings *)

Section StringFacts.

Lemma str_eqb_eq (a b : pystr) : str_eqb a b = true <-> a = b.
Proof.
  revert b; induction a as [|x a IH]; intros [|y b]; simpl;
    try (split; [discriminate | congruence]); try tauto.
  rewrite andb_true_iff, N.eqb_eq, IH. split.
  - intros [-> ->]; reflexivity.
  - intros H; injection H; auto.
Qed.

Lemma str_eqb_refl (a : pystr) : str_eqb a a = true.
Proof. apply str_eqb_eq; reflexivity. Qed.

Lemma str_eqb_sym (a b : pystr) : str_eqb a b = str_eqb b a.
Proof.
  destruct (str_eqb a b) eqn:Hab; destruct (str_eqb b a) eqn:Hba; auto.
  - apply str_eqb_eq in Hab; subst. rewrite str_eqb_refl in Hba; discriminate.
  - apply str_eqb_eq in Hba; subst. rewrite str_eqb_refl in Hab; discriminate.
Qed.

Lemma space_is_space : is_space SPACE = true.
Proof. reflexivity. Qed.

Lemma space_not_label : is_label_char SPACE = false.
Proof. reflexivity. Qed.

Lemma run_length_le p (s : pystr) : run_length p s <= length s.
Proof. induction s as [|c r IH]; simpl; [lia | destruct (p c); lia]. Qed.

Lemma run_length_all p (x q : pystr) :
  forallb p x = true ->
  run_length p (x ++ q) = length x + run_length p q.
Proof.
  induction x as [|c x IH]; simpl; auto.
  rewrite andb_true_iff; intros [-> H]. rewrite IH; auto.
Qed.

(** The characters of a run satisfy the predicate. *)
Lemma run_length_firstn p (s : pystr) :
  forallb p (firstn (run_length p s) s) = true.
Proof.
  induction s as [|c r IH]; simpl; auto.
  destruct (p c) eqn:Hc; simpl; auto. rewrite Hc; auto.
Qed.

(** *** The white-space pattern *)

Lemma sub_spaces_filter (s : pystr) (k : nat) :
  k <= run_length is_space s ->
  re_sub_from match_spaces [] k s = filter no_space s.
Proof.
  revert k; induction s as [|c r IH]; intros k Hk; simpl; auto.
  unfold no_space at 1. simpl in Hk.
  destruct k as [|k].
  - unfold match_spaces; simpl.
    destruct (is_space c) eqn:Hc; simpl.
    + apply IH; lia.
    + f_equal. apply IH; lia.
  - destruct (is_space c) eqn:Hc; simpl; [apply IH; lia | lia].
Qed.

Lemma re_sub_spaces (s : pystr) :
  re_sub match_spaces [] s = filter no_space s.
Proof. apply sub_spaces_filter; lia. Qed.

Lemma filter_no_space_id (s : pystr) :
  forallb no_space s = true -> filter no_space s = s.
Proof.
  induction s as [|c r IH]; simpl; auto.
  rewrite andb_true_iff; intros [-> H]. f_equal; auto.
Qed.

Lemma forallb_filter_no_space (s : pystr) :
  forallb no_space (filter no_space s) = true.
Proof.
  induction s as [|c r IH]; simpl; auto.
  destruct (no_space c) eqn:Hc; simpl; auto. rewrite Hc; auto.
Qed.

(** *** The label pattern *)

(** A match is an opening parenthesis, a non-empty run of label
    characters and a space. *)
Lemma match_label_inv (s : pystr) (n : nat) :
  match_label s = Some n ->
  exists L q, s = LPAREN :: L ++ SPACE :: q /\ L <> [] /\
              forallb is_label_char L = true /\ n = S (S (length L)).
Proof.
  destruct s as [|c r]; [discriminate|]. unfold match_label.
  destruct (N.eqb_spec c LPAREN) as [->|]; [|discriminate].
  pose proof (run_length_firstn is_label_char r) as Hrun.
  pose proof (run_length_le is_label_char r) as Hle.
  pose proof (firstn_skipn (run_length is_label_char r) r) as Hsplit.
  cbv zeta.
  destruct (run_length is_label_char r) as [|m] eqn:Hn; [discriminate|].
  destruct (skipn (S m) r) as [|d q] eqn:Hs; [discriminate|].
  destruct (N.eqb_spec d SPACE) as [->|]; [|discriminate].
  intros H; injection H as <-.
  exists (firstn (S m) r), q. repeat split; auto.
  - rewrite Hsplit; reflexivity.
  - intros Hnil. apply (f_equal (@length _)) in Hnil.
    rewrite length_firstn in Hnil. cbn [length] in Hnil. lia.
  - rewrite length_firstn. lia.
Qed.

Lemma match_label_intro (L q : pystr) :
  L <> [] -> forallb is_label_char L = true ->
  match_label (LPAREN :: L ++ SPACE :: q) = Some (S (S (length L))).
Proof.
  intros Hne HL. unfold match_label.
  rewrite N.eqb_refl.
  rewrite (run_length_all _ _ _ HL). simpl run_length.
  rewrite Nat.add_0_r.
  destruct (length L) as [|m] eqn:Hlen.
  - destruct L; [congruence | discriminate].
  - rewrite <- Hlen, skipn_app, skipn_all, Nat.sub_diag. reflexivity.
Qed.

Lemma match_label_bound (s : pystr) (n : nat) :
  match_label s = Some n -> n <= length s.
Proof.
  intros H. apply match_label_inv in H as (L & q & -> & _ & _ & ->).
  simpl. rewrite length_app. simpl. lia.
Qed.

Lemma match_label_space (s : pystr) (n : nat) :
  match_label s = Some n -> existsb is_space s = true.
Proof.
  intros H. apply match_label_inv in H as (L & q & -> & _ & _ & _).
  apply existsb_exists. exists SPACE. split; [|reflexivity].
  right. apply in_or_app. right. left. reflexivity.
Qed.

End StringFacts.

Section StripFacts.

Let sub_label := re_sub_from match_label [LPAREN].

Lemma no_space_no_match (s : pystr) :
  forallb no_space s = true -> match_label s = None.
Proof.
  intros H. destruct (match_label s) as [n|] eqn:Hm; auto.
  apply match_label_space in Hm. apply existsb_exists in Hm as (c & Hin & Hc).
  rewrite forallb_forall in H. apply H in Hin. unfold no_space in Hin.
  rewrite Hc in Hin. discriminate.
Qed.

(** Without white space nothing matches the label pattern. *)
Lemma sub_label_no_space (s : pystr) :
  forallb no_space s = true -> re_sub match_label [LPAREN] s = s.
Proof.
  unfold re_sub. induction s as [|c r IH]; intros H; auto.
  cbn [re_sub_from]. rewrite (no_space_no_match _ H).
  simpl in H. apply andb_true_iff in H as [_ H]. f_equal; auto.
Qed.

(** Skipping the rest of a match. *)
Lemma sub_label_skip (x q : pystr) :
  sub_label (length x) (x ++ q) = sub_label 0 q.
Proof. induction x as [|c x IH]; simpl; auto. Qed.

(** What follows an opening parenthesis does not change the matches that
    start before it. *)
Lemma match_label_local (c : char) (p rest : pystr) :
  match_label ((c :: p) ++ LPAREN :: rest) = match_label (c :: p).
Proof.
  cbn [app match_label]. destruct (N.eqb c LPAREN); auto.
  assert (Hrun : run_length is_label_char (p ++ LPAREN :: rest)
                 = run_length is_label_char p).
  { clear. induction p as [|a p IH]; simpl; auto.
    destruct (is_label_char a); auto. }
  rewrite Hrun. cbv zeta.
  pose proof (run_length_le is_label_char p) as Hle.
  destruct (run_length is_label_char p) as [|m]; auto.
  rewrite skipn_app.
  destruct (skipn (S m) p) as [|d q] eqn:Hs; auto.
  assert (Hz : S m - length p = 0).
  { destruct (Nat.eq_dec (S m) (length p)) as [E|NE]; [lia|].
    assert (length (skipn (S m) p) = 0) by (rewrite Hs; reflexivity).
    rewrite length_skipn in H. lia. }
  rewrite Hz. reflexivity.
Qed.

Lemma sub_label_app_paren (p rest : pystr) (k : nat) :
  k <= length p ->
  sub_label k (p ++ LPAREN :: rest) = sub_label k p ++ sub_label 0 (LPAREN :: rest).
Proof.
  revert k; induction p as [|c p IH]; intros k Hk.
  - simpl in Hk. replace k with 0 by lia. reflexivity.
  - destruct k as [|k].
    + unfold sub_label. change ((c :: p) ++ LPAREN :: rest)
        with (c :: (p ++ LPAREN :: rest)).
      cbn [re_sub_from].
      change (c :: (p ++ LPAREN :: rest)) with ((c :: p) ++ LPAREN :: rest).
      rewrite match_label_local.
      destruct (match_label (c :: p)) as [[|n]|] eqn:Hm.
      * cbn [app]. f_equal. apply IH; lia.
      * apply match_label_bound in Hm. simpl in Hm.
        rewrite <- app_assoc. f_equal. apply IH; lia.
      * cbn [app]. f_equal. apply IH; lia.
    + simpl. apply IH. simpl in Hk; lia.
Qed.

(** A label between an opening parenthesis and a space goes away with the
    space, whatever stands before and after. *)
Lemma sub_label_removes (p L q : pystr) :
  L <> [] -> forallb is_label_char L = true ->
  re_sub match_label [LPAREN] (p ++ LPAREN :: L ++ SPACE :: q)
  = re_sub match_label [LPAREN] p ++ LPAREN :: re_sub match_label [LPAREN] q.
Proof.
  intros Hne HL. unfold re_sub. fold sub_label.
  rewrite sub_label_app_paren by lia. f_equal.
  unfold sub_label. cbn [re_sub_from].
  rewrite (match_label_intro q Hne HL). cbn [app]. f_equal.
  replace (L ++ SPACE :: q) with ((L ++ [SPACE]) ++ q)
    by (rewrite <- app_assoc; reflexivity).
  replace (S (length L)) with (length (L ++ [SPACE]))
    by (rewrite length_app; simpl; lia).
  apply sub_label_skip.
Qed.

(** The characters that the substitution drops are label characters and
    spaces: the number of any other character stays. *)
Lemma sub_label_count (x : char) (s : pystr) (k : nat) :
  is_label_char x = false -> x <> SPACE ->
  k = 0 \/ (forallb is_label_char (firstn (k - 1) s) = true /\
            exists q, skipn (k - 1) s = SPACE :: q) ->
  count_occ N.eq_dec (sub_label k s) x = count_occ N.eq_dec (skipn k s) x
  /\ (k = 0 -> count_occ N.eq_dec (sub_label 0 s) x = count_occ N.eq_dec s x).
Proof.
  intros Hx Hsp. revert k.
  induction s as [|c r IH]; intros k Hk.
  - destruct k; simpl; auto.
  - destruct k as [|k].
    + assert (Hgoal : count_occ N.eq_dec (sub_label 0 (c :: r)) x
                      = count_occ N.eq_dec (c :: r) x).
      { unfold sub_label. cbn [re_sub_from].
        destruct (match_label (c :: r)) as [[|n]|] eqn:Hm.
        - cbn [count_occ]. destruct (IH 0) as [_ H0]; [auto|].
          fold sub_label. rewrite H0; auto.
        - apply match_label_inv in Hm as (L & q & Heq & Hne & HL & Hn).
          injection Heq as -> ->. injection Hn as ->.
          fold sub_label. destruct (IH (S (length L))) as [H1 _].
          { right. simpl. rewrite Nat.sub_0_r.
            rewrite firstn_app, firstn_all, Nat.sub_diag, app_nil_r.
            split; auto. exists q.
            rewrite skipn_app, skipn_all, Nat.sub_diag. reflexivity. }
          cbn [app count_occ]. rewrite H1.
          replace (skipn (S (length L)) (L ++ SPACE :: q)) with q.
          2:{ replace (L ++ SPACE :: q) with ((L ++ [SPACE]) ++ q)
                by (rewrite <- app_assoc; reflexivity).
              replace (S (length L)) with (length (L ++ [SPACE]))
                by (rewrite length_app; simpl; lia).
              rewrite skipn_app, skipn_all, Nat.sub_diag. reflexivity. }
          assert (Hq : count_occ N.eq_dec (L ++ SPACE :: q) x
                       = count_occ N.eq_dec q x).
          { rewrite count_occ_app, count_occ_cons_neq by congruence.
            assert (HLx : count_occ N.eq_dec L x = 0).
            { apply count_occ_not_In. intros Hin.
              rewrite forallb_forall in HL; apply HL in Hin. congruence. }
            rewrite HLx. reflexivity. }
          rewrite Hq. reflexivity.
        - cbn [count_occ]. destruct (IH 0) as [_ H0]; [auto|].
          fold sub_label. rewrite H0; auto. }
      split; auto.
    + split; [|discriminate].
      destruct Hk as [Hk|[Hrun [q Hq]]]; [discriminate|].
      simpl in Hrun, Hq. rewrite Nat.sub_0_r in Hrun, Hq.
      unfold sub_label. cbn [re_sub_from skipn]. fold sub_label.
      destruct k as [|k].
      * destruct (IH 0) as [_ H0]; [auto|]. rewrite H0; auto.
      * destruct (IH (S k)) as [H1 _]; auto.
        right. simpl. rewrite Nat.sub_0_r. simpl in Hrun, Hq.
        apply andb_true_iff in Hrun as [_ Hrun]. split; auto. exists q; auto.
Qed.

Lemma re_sub_label_count (x : char) (s : pystr) :
  is_label_char x = false -> x <> SPACE ->
  count_occ N.eq_dec (re_sub match_label [LPAREN] s) x = count_occ N.eq_dec s x.
Proof.
  intros Hx Hsp. unfold re_sub.
  destruct (sub_label_count s (k:=0) Hx Hsp) as [_ H]; auto.
Qed.

Lemma filter_no_space_count (x : char) (s : pystr) :
  is_space x = false ->
  count_occ N.eq_dec (filter no_space s) x = count_occ N.eq_dec s x.
Proof.
  intros Hx. induction s as [|c r IH]; simpl; auto.
  unfold no_space at 1. destruct (is_space c) eqn:Hc; simpl.
  - destruct (N.eq_dec c x); [congruence | auto].
  - destruct (N.eq_dec c x); congruence.
Qed.

Lemma replace_char_count (old new x : char) (s : pystr) :
  old <> new ->
  count_occ N.eq_dec (replace_char old new s) x =
  if N.eq_dec x old then 0
  else if N.eq_dec x new
       then count_occ N.eq_dec s new + count_occ N.eq_dec s old
       else count_occ N.eq_dec s x.
Proof.
  intros Hne. induction s as [|c r IH]; simpl.
  - destruct (N.eq_dec x old), (N.eq_dec x new); reflexivity.
  - destruct (N.eqb_spec c old) as [->|Hc].
    + destruct (N.eq_dec new x), (N.eq_dec x old), (N.eq_dec x new),
        (N.eq_dec old new), (N.eq_dec new new), (N.eq_dec old old),
        (N.eq_dec old x); subst; try congruence; rewrite IH;
        repeat match goal with
               | |- context [N.eq_dec ?a ?b] => destruct (N.eq_dec a b)
               end; try congruence; lia.
    + destruct (N.eq_dec c x), (N.eq_dec x old), (N.eq_dec x new),
        (N.eq_dec c new), (N.eq_dec c old); subst; try congruence;
        rewrite IH;
        repeat match goal with
               | |- context [N.eq_dec ?a ?b] => destruct (N.eq_dec a b)
               end; try congruence; lia.
Qed.

Lemma strip_is_filter (s : pystr) :
  remove_non_terminal_labels s = filter no_space (re_sub match_label [LPAREN] s).
Proof. unfold remove_non_terminal_labels. apply re_sub_spaces. Qed.

Lemma strip_no_space (s : pystr) :
  forallb no_space (remove_non_terminal_labels s) = true.
Proof. rewrite strip_is_filter. apply forallb_filter_no_space. Qed.

End StripFacts.

(** ** Label stripping and the skeleton string *)

(** X18.  A label of characters [A-Z] and [$] that follows an opening
    parenthesis and is followed by a space is removed by
    [remove_non_terminal_labels] together with that space, whatever the
    text before and after it is; and stripping a stripped string changes
    nothing. *)
Theorem strip_removes_spaced_labels_and_is_idempotent
        (p L q s : pystr)
        (Hne : L <> []) (Hlab : forallb is_label_char L = true) :
  remove_non_terminal_labels (p ++ LPAREN :: L ++ SPACE :: q)
  = remove_non_terminal_labels p ++ LPAREN :: remove_non_terminal_labels q
  /\ remove_non_terminal_labels (remove_non_terminal_labels s)
     = remove_non_terminal_labels s.
Proof.
  split.
  - rewrite !strip_is_filter, sub_label_removes by assumption.
    rewrite filter_app. reflexivity.
  - pose proof (strip_no_space s) as H.
    rewrite (strip_is_filter (remove_non_terminal_labels s)).
    rewrite sub_label_no_space by assumption.
    apply filter_no_space_id; assumption.
Qed.

Lemma strip_removes_spaced_labels_witness :
  remove_non_terminal_labels (lit "(S " ++ LPAREN :: lit "NP" ++ SPACE :: lit "a))")
  = remove_non_terminal_labels (lit "(S ") ++ LPAREN :: remove_non_terminal_labels (lit "a))")
  /\ remove_non_terminal_labels (remove_non_terminal_labels (lit "(S (NP a))"))
     = remove_non_terminal_labels (lit "(S (NP a))").
Proof.
  apply (@strip_removes_spaced_labels_and_is_idempotent
           (lit "(S ") (lit "NP") (lit "a))") (lit "(S (NP a))")).
  - discriminate.
  - reflexivity.
Defined.

(** C7.  [remove_non_terminal_labels] does not remove every label that
    follows an opening parenthesis: in a tree string printed over several
    lines the label [S] is followed by a newline, and it is still there
    after stripping, where the docstring promises a string without
    non-terminal labels.  So for a tree of eleven nodes as [str] prints
    it on five lines: [ROOT] and [S] stay, the labels followed by a space
    go.  The same holds for a label directly followed by a
    parenthesis. *)
Lemma strip_keeps_label_before_newline :
  remove_non_terminal_labels (lit "(S" ++ [NEWLINE] ++ lit "  (NP (DT a)))")
  = lit "(S((a)))"
  /\ remove_non_terminal_labels (lit "(S(NP a))") = lit "(S(a))"
  /\ remove_non_terminal_labels
       (lit "(ROOT" ++ [NEWLINE]
        ++ lit "  (S" ++ [NEWLINE]
        ++ lit "    (NP (DT the) (JJ quick) (JJ brown) (NN fox))" ++ [NEWLINE]
        ++ lit "    (VP (VBZ jumps) (PP (IN over) (NP (DT the) (JJ lazy) (NN dog))))"
        ++ [NEWLINE]
        ++ lit "    (. .)))")
     = lit "(ROOT(S((the)(quick)(brown)(fox))((jumps)((over)((the)(lazy)(dog))))(..)))".
Proof. repeat split; vm_compute; reflexivity. Qed.

(** The result of [clean_string] has no parenthesis and no white-space
    character, and it has a brace for every parenthesis of the input: the
    opening braces are as many as the opening braces and parentheses of
    the input, and so for the closing ones. *)
Lemma clean_string_counts (s : pystr) :
  forallb (fun c => negb (N.eqb c LPAREN) && negb (N.eqb c RPAREN)
                    && negb (is_space c)) (clean_string s) = true
  /\ count_occ N.eq_dec (clean_string s) LBRACE
     = count_occ N.eq_dec s LBRACE + count_occ N.eq_dec s LPAREN
  /\ count_occ N.eq_dec (clean_string s) RBRACE
     = count_occ N.eq_dec s RBRACE + count_occ N.eq_dec s RPAREN.
Proof.
  unfold clean_string. cbv zeta.
  assert (Hcount : forall x, is_label_char x = false -> is_space x = false ->
            count_occ N.eq_dec (remove_non_terminal_labels s) x
            = count_occ N.eq_dec s x).
  { intros x Hx Hs. rewrite strip_is_filter, filter_no_space_count by assumption.
    apply re_sub_label_count; [assumption|]. intros ->. discriminate. }
  repeat split.
  - apply forallb_forall. intros c Hin.
    unfold replace_char in Hin.
    apply in_map_iff in Hin as (b & <- & Hin).
    apply in_map_iff in Hin as (a & <- & Hin).
    pose proof (strip_no_space s) as Hsp. rewrite forallb_forall in Hsp.
    apply Hsp in Hin. unfold no_space in Hin.
    destruct (N.eqb_spec a RPAREN) as [->|Har].
    + reflexivity.
    + destruct (N.eqb_spec a LPAREN) as [->|Hal]; [reflexivity|].
      apply N.eqb_neq in Har, Hal. rewrite Har, Hal, Hin. reflexivity.
  - rewrite replace_char_count by discriminate.
    destruct (N.eq_dec LBRACE LPAREN) as [E|_]; [discriminate E|].
    destruct (N.eq_dec LBRACE LBRACE) as [_|NE]; [|congruence].
    rewrite !replace_char_count by discriminate.
    destruct (N.eq_dec LBRACE RPAREN) as [E|_]; [discriminate E|].
    destruct (N.eq_dec LBRACE RBRACE) as [E|_]; [discriminate E|].
    destruct (N.eq_dec LPAREN RPAREN) as [E|_]; [discriminate E|].
    destruct (N.eq_dec LPAREN RBRACE) as [E|_]; [discriminate E|].
    rewrite !Hcount by reflexivity. reflexivity.
  - rewrite replace_char_count by discriminate.
    destruct (N.eq_dec RBRACE LPAREN) as [E|_]; [discriminate E|].
    destruct (N.eq_dec RBRACE LBRACE) as [E|_]; [discriminate E|].
    rewrite replace_char_count by discriminate.
    destruct (N.eq_dec RBRACE RPAREN) as [E|_]; [discriminate E|].
    destruct (N.eq_dec RBRACE RBRACE) as [_|NE]; [|congruence].
    rewrite !Hcount by reflexivity. reflexivity.
Qed.

(** ** The depth-limited rendering *)

Section RenderFacts.

(** Induction on a tree with the property for all its children. *)
Lemma nltk_forall_ind (P : nltk -> Prop) :
  (forall tok, P (Leaf tok)) ->
  (forall label cs, Forall P cs -> P (Tree label cs)) ->
  forall t, P t.
Proof.
  intros HLeaf HTree.
  fix IH 1. intros [tok|label cs].
  - apply HLeaf.
  - apply HTree. induction cs as [|c cs IHcs]; constructor; [apply IH | exact IHcs].
Qed.

Lemma render_tree_eq (label : pystr) (c : nltk) (cs : list nltk)
      (max_depth : pyval) (current_depth : Z) :
  nltk_tree_to_n_bracket_string (Tree label (c :: cs)) max_depth current_depth
  = match past_max_depth max_depth current_depth with
    | Err e => Err e
    | Ok true => Ok []
    | Ok false =>
        if 2 <? height (Tree label (c :: cs)) then
          for_children
            (fun child => nltk_tree_to_n_bracket_string
                            child max_depth (current_depth + 1))
            (c :: cs) ([LPAREN] ++ label ++ [SPACE])
        else Ok (([LPAREN] ++ label ++ [SPACE])
                   ++ join [SPACE] (leaves (Tree label (c :: cs))) ++ [RPAREN])
    end.
Proof.
  cbn [nltk_tree_to_n_bracket_string].
  destruct (past_max_depth max_depth current_depth) as [[|]|]; try reflexivity.
  destruct (2 <? height (Tree label (c :: cs))); [|reflexivity].
  cbn [for_children].
  destruct (nltk_tree_to_n_bracket_string c max_depth (current_depth + 1))
    as [s|e]; [|reflexivity].
  generalize (([LPAREN] ++ label ++ [SPACE]) ++ s) as acc.
  induction cs as [|x l IH]; intros acc; cbn [for_children]; [reflexivity|].
  destruct (nltk_tree_to_n_bracket_string x max_depth (current_depth + 1));
    [apply IH | reflexivity].
Qed.

Lemma for_children_ext (f g : nltk -> result pystr) (l : list nltk) (acc : pystr) :
  Forall (fun c => f c = g c) l -> for_children f l acc = for_children g l acc.
Proof.
  intros H; revert acc; induction H as [|c l Hc _ IH]; intros acc; simpl; auto.
  rewrite Hc. destruct (g c); auto.
Qed.

Lemma for_children_nothing (f : nltk -> result pystr) (l : list nltk) (acc : pystr) :
  Forall (fun c => f c = Ok []) l -> for_children f l acc = Ok (acc ++ [RPAREN]).
Proof.
  intros H; revert acc; induction H as [|c l Hc _ IH]; intros acc; simpl; auto.
  rewrite Hc, app_nil_r. apply IH.
Qed.

Lemma height_child (label : pystr) (cs : list nltk) (c : nltk) :
  In c cs -> height c < height (Tree label cs).
Proof.
  cbn [height]. induction cs as [|x cs IH]; intros Hin; [destruct Hin|].
  destruct Hin as [->|Hin]; [lia|]. apply IH in Hin. lia.
Qed.

Lemma height_pos (t : nltk) : 1 <= height t.
Proof. destruct t; simpl; lia. Qed.

(** Below the limit the check of the depth never fires: the rendering is
    the unlimited one. *)
Lemma render_within_limit (t : nltk) :
  forall (md cur : Z),
    (cur + Z.of_nat (height t) <= md + 1)%Z ->
    nltk_tree_to_n_bracket_string t (PyInt md) cur
    = nltk_tree_to_n_bracket_string t PyNone cur.
Proof.
  induction t as [tok|label cs IH] using nltk_forall_ind; intros md cur Hb.
  - pose proof (height_pos (Leaf tok)).
    cbn [nltk_tree_to_n_bracket_string past_max_depth int_gt].
    replace (md <? cur)%Z with false by (symmetry; apply Z.ltb_ge; lia).
    reflexivity.
  - pose proof (height_pos (Tree label cs)) as Hp.
    assert (Hlt : (md <? cur)%Z = false) by (apply Z.ltb_ge; lia).
    destruct cs as [|c cs].
    + cbn [nltk_tree_to_n_bracket_string past_max_depth int_gt].
      rewrite Hlt. reflexivity.
    + rewrite !render_tree_eq. cbn [past_max_depth int_gt]. rewrite Hlt.
      destruct (2 <? height (Tree label (c :: cs))); [|reflexivity].
      apply for_children_ext.
      rewrite Forall_forall in IH. apply Forall_forall. intros x Hx.
      apply IH; [assumption|].
      pose proof (height_child label _ _ Hx). lia.
Qed.

(** Past the limit a node is rendered as the empty string. *)
Lemma render_past_limit (t : nltk) (md cur : Z) :
  (md < cur)%Z -> nltk_tree_to_n_bracket_string t (PyInt md) cur = Ok [].
Proof.
  intros H. destruct t as [tok|label cs];
    cbn [nltk_tree_to_n_bracket_string past_max_depth int_gt];
    replace (md <? cur)%Z with true by (symmetry; apply Z.ltb_lt; lia);
    reflexivity.
Qed.

(** A node at the limit that is higher than 2 keeps its label and loses
    everything below. *)
Lemma render_at_limit (label : pystr) (cs : list nltk) (md : Z) :
  2 < height (Tree label cs) ->
  nltk_tree_to_n_bracket_string (Tree label cs) (PyInt md) md
  = Ok ([LPAREN] ++ label ++ [SPACE] ++ [RPAREN]).
Proof.
  intros Hh. destruct cs as [|c cs]; [simpl in Hh; lia|].
  rewrite render_tree_eq. cbn [past_max_depth int_gt].
  rewrite Z.ltb_irrefl.
  apply Nat.ltb_lt in Hh. rewrite Hh.
  rewrite for_children_nothing.
  - rewrite <- !app_assoc. reflexivity.
  - apply Forall_forall. intros x _. apply render_past_limit. lia.
Qed.

End RenderFacts.

(** C6.  For depth limits [d] and [d'] that are at least the height of
    the tree, the depth-limited renderings are the same. *)
Theorem depth_limit_beyond_height (T : nltk) (d d' : Z)
        (Hd : (Z.of_nat (height T) <= d)%Z)
        (Hd' : (Z.of_nat (height T) <= d')%Z) :
  nltk_tree_to_n_bracket_string T (PyInt d) 0
  = nltk_tree_to_n_bracket_string T (PyInt d') 0.
Proof.
  rewrite !render_within_limit by lia. reflexivity.
Qed.

Lemma depth_limit_beyond_height_witness :
  nltk_tree_to_n_bracket_string t_ab (PyInt 4) 0
  = nltk_tree_to_n_bracket_string t_ab (PyInt 9) 0.
Proof.
  apply (@depth_limit_beyond_height t_ab 4 9); simpl; lia.
Defined.

(** ** The edit-distance engine *)

Section EngineFacts.

Lemma tsize_node (v : pystr) (C : forest) : tsize (ANode v C) = S (fsize C).
Proof.
  reflexivity.
Qed.

Lemma fsize_app (A B : forest) : fsize (A ++ B) = fsize A + fsize B.
Proof. induction A as [|a A IH]; simpl; [reflexivity | rewrite IH; lia]. Qed.

Lemma fsize_cons (v : pystr) (C R : forest) :
  fsize (ANode v C :: R) = S (fsize C + fsize R).
Proof. cbn [fsize]. rewrite tsize_node. reflexivity. Qed.

Lemma forest_dist_nil_l (n : nat) (G : forest) :
  forest_dist n [] G = fsize G.
Proof. destruct n; cbn [forest_dist]; apply Nat.mul_1_r. Qed.

Lemma forest_dist_nil_r (n : nat) (F : forest) :
  forest_dist n F [] = fsize F.
Proof.
  destruct n, F as [|[v C] F']; cbn [forest_dist]; try apply Nat.mul_1_r;
    reflexivity.
Qed.

(** The fuel does not matter once it covers the nodes of both forests. *)
Lemma forest_dist_fuel (n : nat) :
  forall (m : nat) (F G : forest),
    fsize F + fsize G <= n -> fsize F + fsize G <= m ->
    forest_dist n F G = forest_dist m F G.
Proof.
  induction n as [|n IH]; intros m F G Hn Hm.
  - destruct F as [|[v C] F']; [rewrite !forest_dist_nil_l; reflexivity|].
    destruct G as [|[w D] G']; [rewrite !forest_dist_nil_r; reflexivity|].
    rewrite !fsize_cons in Hn. lia.
  - destruct F as [|[v C] F']; [rewrite !forest_dist_nil_l; reflexivity|].
    destruct G as [|[w D] G']; [rewrite !forest_dist_nil_r; reflexivity|].
    pose proof Hn as Hn'. pose proof Hm as Hm'.
    rewrite !fsize_cons in Hn', Hm'.
    destruct m as [|m]; [lia|].
    cbn [forest_dist].
    rewrite (IH m (C ++ F') (ANode w D :: G')),
            (IH m (ANode v C :: F') (D ++ G')),
            (IH m C D), (IH m F' G');
      rewrite ?fsize_app, ?fsize_cons; lia.
Qed.

Lemma fdist_nil_l (G : forest) : fdist [] G = fsize G.
Proof. apply forest_dist_nil_l. Qed.

Lemma fdist_nil_r (F : forest) : fdist F [] = fsize F.
Proof. apply forest_dist_nil_r. Qed.

Lemma fdist_cons (v w : pystr) (C D F' G' : forest) :
  fdist (ANode v C :: F') (ANode w D :: G')
  = Nat.min (fdist (C ++ F') (ANode w D :: G') + 1)
      (Nat.min (fdist (ANode v C :: F') (D ++ G') + 1)
         (fdist C D + fdist F' G' + rename_cost v w)).
Proof.
  unfold fdist at 1.
  remember (fsize (ANode v C :: F') + fsize (ANode w D :: G')) as n eqn:Hn.
  pose proof Hn as Hn'. rewrite !fsize_cons in Hn'.
  destruct n as [|n]; [lia|].
  cbn [forest_dist]. unfold delete_cost, insert_cost, fdist.
  rewrite (forest_dist_fuel (n:=n) (m:=fsize (C ++ F') + fsize (ANode w D :: G'))),
          (forest_dist_fuel (n:=n) (m:=fsize (ANode v C :: F') + fsize (D ++ G'))),
          (forest_dist_fuel (n:=n) (m:=fsize C + fsize D)),
          (forest_dist_fuel (n:=n) (m:=fsize F' + fsize G'));
    rewrite ?fsize_app, ?fsize_cons; lia.
Qed.

Lemma compute_edit_distance_fdist (t1 t2 : atree) :
  compute_edit_distance t1 t2 = fdist [t1] [t2].
Proof.
  unfold compute_edit_distance, fdist.
  apply forest_dist_fuel; simpl; lia.
Qed.

Lemma rename_cost_refl (v : pystr) : rename_cost v v = 0.
Proof. unfold rename_cost. rewrite str_eqb_refl. reflexivity. Qed.

Lemma rename_cost_sym (v w : pystr) : rename_cost v w = rename_cost w v.
Proof. unfold rename_cost. rewrite str_eqb_sym. reflexivity. Qed.

Lemma rename_cost_triangle (u v w : pystr) :
  rename_cost u w <= rename_cost u v + rename_cost v w.
Proof.
  unfold rename_cost.
  destruct (str_eqb u v) eqn:Huv; destruct (str_eqb v w) eqn:Hvw;
    destruct (str_eqb u w) eqn:Huw; try lia.
  apply str_eqb_eq in Huv, Hvw. subst. rewrite str_eqb_refl in Huw. discriminate.
Qed.

(** Induction on the number of nodes of two forests. *)
Lemma forest_pair_ind (P : forest -> forest -> Prop) :
  (forall F G,
      (forall F' G', fsize F' + fsize G' < fsize F + fsize G -> P F' G') ->
      P F G) ->
  forall F G, P F G.
Proof.
  intros Hstep F G.
  remember (fsize F + fsize G) as n eqn:Hn.
  revert F G Hn. induction n as [n IH] using lt_wf_ind.
  intros F G ->. apply Hstep. intros F' G' Hlt. eapply IH; eauto.
Qed.

Lemma fdist_refl (F : forest) : fdist F F = 0.
Proof.
  remember (fsize F) as n eqn:Hn. revert F Hn.
  induction n as [n IH] using lt_wf_ind. intros F ->.
  destruct F as [|[v C] F']; [reflexivity|].
  rewrite fdist_cons, rename_cost_refl.
  rewrite (IH (fsize C)) with (F := C), (IH (fsize F')) with (F := F');
    rewrite ?fsize_cons; lia.
Qed.

Lemma fdist_sym : forall F G, fdist F G = fdist G F.
Proof.
  apply (forest_pair_ind (fun F G => fdist F G = fdist G F)).
  intros F G IH.
  destruct F as [|[v C] F']; [rewrite fdist_nil_l, fdist_nil_r; reflexivity|].
  destruct G as [|[w D] G']; [rewrite fdist_nil_l, fdist_nil_r; reflexivity|].
  rewrite !fdist_cons.
  rewrite (IH (C ++ F') (ANode w D :: G')), (IH (ANode v C :: F') (D ++ G')),
          (IH C D), (IH F' G'), (rename_cost_sym v w);
    rewrite ?fsize_app, ?fsize_cons; lia.
Qed.

End EngineFacts.

Section EditModel.

Lemma fdist_delete_left (v : pystr) (C F' G : forest) :
  fdist (ANode v C :: F') G <= fdist (C ++ F') G + 1.
Proof.
  destruct G as [|[w D] G'].
  - rewrite !fdist_nil_r, fsize_cons, fsize_app. lia.
  - rewrite fdist_cons. lia.
Qed.

Lemma fdist_insert_right (w : pystr) (D F G' : forest) :
  fdist F (ANode w D :: G') <= fdist F (D ++ G') + 1.
Proof.
  rewrite (fdist_sym F (ANode w D :: G')), (fdist_sym F (D ++ G')).
  apply fdist_delete_left.
Qed.

(** Inserting a whole forest costs at most its number of nodes. *)
Lemma fdist_insert_many (B : forest) :
  forall C D, fdist C (B ++ D) <= fsize B + fdist C D.
Proof.
  remember (fsize B) as n eqn:Hn. revert B Hn.
  induction n as [n IH] using lt_wf_ind. intros B -> C D.
  destruct B as [|[w Y] B']; [simpl; lia|].
  cbn [app]. etransitivity; [apply fdist_insert_right|].
  pose proof (IH (fsize (Y ++ B'))
                 ltac:(rewrite fsize_cons, fsize_app; lia)
                 (Y ++ B') eq_refl C D) as H.
  rewrite <- app_assoc in H. rewrite fsize_app in H. rewrite fsize_cons. lia.
Qed.

Lemma fdist_delete_many (A C D : forest) :
  fdist (A ++ C) D <= fsize A + fdist C D.
Proof.
  rewrite (fdist_sym (A ++ C) D), (fdist_sym C D). apply fdist_insert_many.
Qed.

(** Two forests side by side cost at most the sum of the parts. *)
Lemma fdist_app : forall A B C D,
    fdist (A ++ C) (B ++ D) <= fdist A B + fdist C D.
Proof.
  intros A B. revert A B.
  apply (forest_pair_ind
           (fun A B => forall C D, fdist (A ++ C) (B ++ D) <= fdist A B + fdist C D)).
  intros A B IH C D.
  destruct A as [|[v X] A'].
  { rewrite fdist_nil_l. apply fdist_insert_many. }
  destruct B as [|[w Y] B'].
  { rewrite fdist_nil_r. apply fdist_delete_many. }
  cbn [app]. rewrite (fdist_cons v w X Y A' B'), fdist_cons.
  pose proof (IH (X ++ A') (ANode w Y :: B')
                 ltac:(rewrite ?fsize_app, ?fsize_cons; lia) C D) as H1.
  pose proof (IH (ANode v X :: A') (Y ++ B')
                 ltac:(rewrite ?fsize_app, ?fsize_cons; lia) C D) as H2.
  pose proof (IH A' B' ltac:(rewrite ?fsize_cons; lia) C D) as H3.
  rewrite <- app_assoc in H1, H2. cbn [app] in H1, H2.
  lia.
Qed.

(** An operation changes the number of nodes by at most its cost. *)
Lemma edit_step_size (G G' : forest) (c : nat) :
  edit_step G G' c -> fsize G' <= fsize G + c /\ fsize G <= fsize G' + c.
Proof.
  induction 1 as [v C R|w D R|v w C R|v C C' R c _ IH|t R R' c _ IH];
    unfold delete_cost, insert_cost;
    rewrite ?fsize_cons, ?fsize_app; cbn [fsize]; lia.
Qed.

Lemma edit_step_app_r (A A' R : forest) (c : nat) :
  edit_step A A' c -> edit_step (A ++ R) (A' ++ R) c.
Proof.
  induction 1 as [v C X|w D X|v w C X|v C C' X c Hin _|t X X' c _ IH]; cbn [app].
  - rewrite <- app_assoc. constructor.
  - rewrite <- app_assoc. constructor.
  - constructor.
  - constructor; exact Hin.
  - constructor; exact IH.
Qed.

Lemma edit_step_app_l (A R R' : forest) (c : nat) :
  edit_step R R' c -> edit_step (A ++ R) (A ++ R') c.
Proof.
  intros H. induction A as [|a A IH]; cbn [app]; [assumption|].
  constructor; assumption.
Qed.

(** The distance to a fixed forest changes by at most the cost of an
    operation. *)
Lemma fdist_step_bound (n : nat) :
  forall F G G' c,
    fsize F + fsize G + fsize G' <= n ->
    edit_step G G' c -> fdist F G' <= fdist F G + c.
Proof.
  induction n as [|n IH]; intros F G G' c Hn Hstep.
  { destruct F as [|[v C] F'].
    - rewrite !fdist_nil_l. apply edit_step_size in Hstep. lia.
    - rewrite fsize_cons in Hn. lia. }
  destruct F as [|[v C] F'].
  { rewrite !fdist_nil_l. apply edit_step_size in Hstep. lia. }
  assert (IH1 : fdist (C ++ F') G' <= fdist (C ++ F') G + c).
  { apply IH; [|assumption]. rewrite fsize_cons in Hn. rewrite fsize_app. lia. }
  pose proof (fdist_delete_left v C F' G') as Hdel.
  inversion Hstep as [w D R|w D R|w w' D R|w D D' R c' Hin|t R R' c' Hin]; subst.
  - (* delete the leftmost root *)
    rewrite (fdist_cons v w C D F' R). unfold delete_cost in *.
    pose proof (fdist_app C D F' R). lia.
  - (* insert a leftmost root *)
    unfold insert_cost. apply fdist_insert_right.
  - (* rename the leftmost root *)
    rewrite (fdist_cons v w C D F' R), (fdist_cons v w' C D F' R).
    pose proof (rename_cost_triangle v w w'). lia.
  - (* inside the leftmost tree *)
    rewrite (fdist_cons v w C D F' R), (fdist_cons v w C D' F' R).
    rewrite !fsize_cons in Hn.
    pose proof (edit_step_size Hin) as Hs.
    assert (IH2 : fdist (ANode v C :: F') (D' ++ R)
                  <= fdist (ANode v C :: F') (D ++ R) + c).
    { apply IH; [|apply edit_step_app_r; assumption].
      rewrite fsize_cons, !fsize_app. lia. }
    assert (IH3 : fdist C D' <= fdist C D + c).
    { apply IH; [|assumption]. lia. }
    lia.
  - (* further right *)
    destruct t as [w D].
    rewrite (fdist_cons v w C D F' R), (fdist_cons v w C D F' R').
    rewrite !fsize_cons in Hn.
    assert (IH2 : fdist (ANode v C :: F') (D ++ R')
                  <= fdist (ANode v C :: F') (D ++ R) + c).
    { apply IH; [|apply edit_step_app_l; assumption].
      rewrite fsize_cons, !fsize_app. lia. }
    assert (IH3 : fdist F' R' <= fdist F' R + c).
    { apply IH; [|assumption]. lia. }
    lia.
Qed.

(** No sequence of operations is cheaper than the distance. *)
Lemma fdist_lower_bound (F G : forest) (c : nat) :
  edit_script F G c -> forall X, fdist X G <= fdist X F + c.
Proof.
  induction 1 as [F|F G H c d Hstep _ IH]; intros X; [lia|].
  specialize (IH X).
  pose proof (@fdist_step_bound _ X F G c (le_n _) Hstep). lia.
Qed.

End EditModel.

Section Scripts.

Lemma script_cost (F G : forest) (c d : nat) :
  edit_script F G c -> c = d -> edit_script F G d.
Proof. intros H <-. exact H. Qed.

Lemma script_one (F G : forest) (c : nat) :
  edit_step F G c -> edit_script F G c.
Proof.
  intros H. apply (script_cost (c:=c + 0)); [|lia].
  eapply script_cons; [exact H | constructor].
Qed.

Lemma script_trans (F G H : forest) (c d : nat) :
  edit_script F G c -> edit_script G H d -> edit_script F H (c + d).
Proof.
  induction 1 as [F|F G K a b Hstep _ IH]; intros Hrest; [exact Hrest|].
  apply (script_cost (c:=a + (b + d))); [|lia].
  eapply script_cons; [exact Hstep | apply IH; exact Hrest].
Qed.

(** A script works as well inside a context: to the left of other trees,
    to their right, and below a node. *)
Lemma script_app_r (A A' R : forest) (c : nat) :
  edit_script A A' c -> edit_script (A ++ R) (A' ++ R) c.
Proof.
  induction 1 as [A|A B K a b Hstep _ IH]; [constructor|].
  eapply script_cons; [apply edit_step_app_r; exact Hstep | exact IH].
Qed.

Lemma script_app_l (A R R' : forest) (c : nat) :
  edit_script R R' c -> edit_script (A ++ R) (A ++ R') c.
Proof.
  induction 1 as [X|X Y K a b Hstep _ IH]; [constructor|].
  eapply script_cons; [apply edit_step_app_l; exact Hstep | exact IH].
Qed.

Lemma script_below (v : pystr) (C C' R : forest) (c : nat) :
  edit_script C C' c -> edit_script (ANode v C :: R) (ANode v C' :: R) c.
Proof.
  induction 1 as [X|X Y K a b Hstep _ IH]; [constructor|].
  eapply script_cons; [apply step_below; exact Hstep | exact IH].
Qed.

(** Deleting every node, and inserting every node. *)
Lemma script_delete_all (F : forest) : edit_script F [] (fsize F).
Proof.
  remember (fsize F) as n eqn:Hn. revert F Hn.
  induction n as [n IH] using lt_wf_ind. intros F ->.
  destruct F as [|[v C] F']; [constructor|].
  rewrite fsize_cons.
  apply (script_cost (c:=delete_cost + fsize (C ++ F')));
    [|unfold delete_cost; rewrite fsize_app; lia].
  eapply script_cons; [apply step_delete|].
  apply (IH (fsize (C ++ F'))); [|reflexivity].
  rewrite fsize_cons, fsize_app. lia.
Qed.

Lemma script_insert_all (G : forest) : edit_script [] G (fsize G).
Proof.
  remember (fsize G) as n eqn:Hn. revert G Hn.
  induction n as [n IH] using lt_wf_ind. intros G ->.
  destruct G as [|[w D] G']; [constructor|].
  rewrite fsize_cons.
  apply (script_cost (c:=fsize (D ++ G') + insert_cost));
    [|unfold insert_cost; rewrite fsize_app; lia].
  eapply script_trans; [|apply script_one, step_insert].
  apply (IH (fsize (D ++ G'))); [|reflexivity].
  rewrite fsize_cons, fsize_app. lia.
Qed.

(** The distance is the cost of a sequence of operations. *)
Lemma fdist_script : forall F G, edit_script F G (fdist F G).
Proof.
  apply (forest_pair_ind (fun F G => edit_script F G (fdist F G))).
  intros F G IH.
  destruct F as [|[v C] F']; [rewrite fdist_nil_l; apply script_insert_all|].
  destruct G as [|[w D] G']; [rewrite fdist_nil_r; apply script_delete_all|].
  rewrite fdist_cons.
  assert (H1 : edit_script (ANode v C :: F') (ANode w D :: G')
                 (fdist (C ++ F') (ANode w D :: G') + 1)).
  { apply (script_cost (c:=delete_cost + fdist (C ++ F') (ANode w D :: G')));
      [|unfold delete_cost; lia].
    eapply script_cons; [apply step_delete|].
    apply IH. rewrite ?fsize_app, ?fsize_cons. lia. }
  assert (H2 : edit_script (ANode v C :: F') (ANode w D :: G')
                 (fdist (ANode v C :: F') (D ++ G') + 1)).
  { eapply script_trans; [|apply script_one, step_insert].
    apply IH. rewrite ?fsize_app, ?fsize_cons. lia. }
  assert (H3 : edit_script (ANode v C :: F') (ANode w D :: G')
                 (fdist C D + fdist F' G' + rename_cost v w)).
  { apply (script_cost (c:=rename_cost v w + (fdist C D + fdist F' G'))); [|lia].
    eapply script_cons; [apply step_rename|].
    eapply script_trans.
    - apply script_below. apply IH. rewrite ?fsize_cons. lia.
    - apply (script_app_l [ANode w D]). apply IH. rewrite ?fsize_cons. lia. }
  destruct (Nat.min_spec (fdist (C ++ F') (ANode w D :: G') + 1)
              (Nat.min (fdist (ANode v C :: F') (D ++ G') + 1)
                 (fdist C D + fdist F' G' + rename_cost v w)))
    as [[_ ->]|[_ ->]]; [exact H1|].
  destruct (Nat.min_spec (fdist (ANode v C :: F') (D ++ G') + 1)
              (fdist C D + fdist F' G' + rename_cost v w))
    as [[_ ->]|[_ ->]]; [exact H2 | exact H3].
Qed.

End Scripts.

(** C3.  The value of the engine is the minimum total cost of
    transforming the first tree into the second by inserting, deleting
    and renaming nodes at the default costs: some sequence of operations
    has this cost, and no sequence of operations has a smaller one. *)
Theorem engine_distance_is_minimum (t1 t2 : atree) (c : nat)
        (Hscript : edit_script [t1] [t2] c) :
  edit_script [t1] [t2] (compute_edit_distance t1 t2)
  /\ compute_edit_distance t1 t2 <= c.
Proof.
  rewrite compute_edit_distance_fdist. split.
  - apply fdist_script.
  - pose proof (fdist_lower_bound Hscript [t1]) as H.
    rewrite fdist_refl in H. exact H.
Qed.

Lemma engine_distance_is_minimum_witness :
  edit_script [ANode (lit "a") [ANode (lit "b") []]] [ANode (lit "c") []]
              (compute_edit_distance (ANode (lit "a") [ANode (lit "b") []])
                                     (ANode (lit "c") []))
  /\ compute_edit_distance (ANode (lit "a") [ANode (lit "b") []])
                           (ANode (lit "c") []) <= 3.
Proof.
  apply (@engine_distance_is_minimum
           (ANode (lit "a") [ANode (lit "b") []]) (ANode (lit "c") []) 3).
  apply (script_cons (G:=[ANode (lit "b") []]) (c:=1) (d:=2)
                     (step_delete (lit "a") [ANode (lit "b") []] [])).
  apply (script_cons (G:=[]) (c:=1) (d:=1) (step_delete (lit "b") [] [])).
  apply (script_cons (G:=[ANode (lit "c") []]) (c:=1) (d:=0)
                     (step_insert (lit "c") [] [])).
  apply script_nil.
Defined.

Lemma engine_distance_sym (A B : atree) :
  compute_edit_distance A B = compute_edit_distance B A.
Proof.
  rewrite !compute_edit_distance_fdist. apply fdist_sym.
Qed.

Lemma engine_distance_self (T : atree) : compute_edit_distance T T = 0.
Proof. rewrite compute_edit_distance_fdist. apply fdist_refl. Qed.

(** ** Runs of [calculate_ted] *)

Section RunFacts.

Variable E : Collaborators.

Lemma outcome_bind {A B} (m : M A) (k : A -> M B) :
  outcome (bind m k)
  = match outcome m with
    | Ok a => outcome (k a)
    | Err e => Err e
    end.
Proof.
  destruct m as [log [a|e]]; simpl; [|reflexivity].
  destruct (k a); reflexivity.
Qed.

Lemma outcome_lift {A} (r : result A) : outcome (lift r) = r.
Proof. reflexivity. Qed.

Lemma outcome_call {A} (ev : event) (r : result A) : outcome (call ev r) = r.
Proof. reflexivity. Qed.

Lemma bind_ok {A B} (log : list event) (a : A) (k : A -> M B) :
  bind (log, Ok a) k = (log ++ calls (k a), outcome (k a)).
Proof. simpl. destruct (k a); reflexivity. Qed.

Lemma get_constituency_tree_ok (s : pystr) (first : ParseTree E)
      (others : list (ParseTree E)) :
  nlp E s = Ok (first :: others) ->
  get_constituency_tree E s = ([EvPipeline s], Ok first).
Proof. intros H. unfold get_constituency_tree, call. rewrite H. reflexivity. Qed.

Lemma get_constituency_tree_inv (s : pystr) (first : ParseTree E) :
  outcome (get_constituency_tree E s) = Ok first ->
  exists others, nlp E s = Ok (first :: others).
Proof.
  unfold get_constituency_tree. rewrite outcome_call.
  destruct (nlp E s) as [[|x others]|]; try discriminate.
  intros H; injection H as ->. exists others; reflexivity.
Qed.

(** The checks let every pair of strings with a string or a non-negative
    int through, and nothing else. *)
Lemma check_arguments_ok (sent1 sent2 depth : pyval) :
  check_arguments sent1 sent2 depth = Ok tt <->
  isinstance_str sent1 = true /\ isinstance_str sent2 = true /\
  (isinstance_str depth = true \/ exists z, depth = PyInt z /\ (0 <= z)%Z).
Proof.
  unfold check_arguments.
  destruct sent1, sent2; simpl; try (split; [discriminate | intros (? & ? & ?); discriminate]).
  destruct depth as [|z|d|]; simpl.
  - split; [discriminate|]. intros (_ & _ & [H|(z & H & _)]); discriminate.
  - destruct (Z.ltb_spec z 0) as [Hlt|Hge].
    + split; [discriminate|].
      intros (_ & _ & [H|(z' & H & Hz)]); [discriminate|].
      injection H as <-. lia.
    + split; [|reflexivity]. intros _. repeat split. right. exists z. auto.
  - split; [|reflexivity]. intros _. repeat split. left; reflexivity.
  - split; [discriminate|]. intros (_ & _ & [H|(z & H & _)]); discriminate.
Qed.

Lemma check_arguments_cases (sent1 sent2 depth : pyval) :
  check_arguments sent1 sent2 depth = Ok tt \/
  check_arguments sent1 sent2 depth = Err TypeError.
Proof.
  unfold check_arguments.
  destruct (negb (isinstance_str sent1) || negb (isinstance_str sent2)); auto.
  destruct (negb (isinstance_str depth || isinstance_int depth)
            || isinstance_int depth && lt_zero depth); auto.
Qed.

(** What a run that returns a distance went through. *)
Lemma calculate_ted_inv (sent1 sent2 depth : pyval) (v : nat) :
  outcome (calculate_ted E sent1 sent2 depth) = Ok v ->
  exists s1 s2 p1 p2 t1 t2 ts1 ts2 a1 a2,
    sent1 = PyStr s1 /\ sent2 = PyStr s2 /\
    check_arguments sent1 sent2 depth = Ok tt /\
    outcome (get_constituency_tree E s1) = Ok p1 /\
    outcome (get_constituency_tree E s2) = Ok p2 /\
    fromstring E (str_parse_tree E p1) = Ok t1 /\
    fromstring E (str_parse_tree E p2) = Ok t2 /\
    tree_string_of E t1 (max_depth_of depth) = Ok ts1 /\
    tree_string_of E t2 (max_depth_of depth) = Ok ts2 /\
    from_text E (clean_string ts1) = Ok a1 /\
    from_text E (clean_string ts2) = Ok a2 /\
    v = compute_edit_distance a1 a2.
Proof.
  unfold calculate_ted. intros H.
  rewrite outcome_bind, outcome_lift in H.
  destruct (check_arguments sent1 sent2 depth) as [[]|] eqn:Hc; [|discriminate].
  rewrite outcome_bind, outcome_lift in H.
  destruct sent1 as [| |s1|]; try discriminate. cbn [sentence_of] in H.
  rewrite outcome_bind, outcome_lift in H.
  destruct sent2 as [| |s2|]; try discriminate. cbn [sentence_of] in H.
  rewrite outcome_bind in H.
  destruct (outcome (get_constituency_tree E s1)) as [p1|] eqn:Hp1; [|discriminate].
  rewrite outcome_bind in H.
  destruct (outcome (get_constituency_tree E s2)) as [p2|] eqn:Hp2; [|discriminate].
  cbv zeta in H. rewrite outcome_bind, outcome_call in H.
  destruct (fromstring E (str_parse_tree E p1)) as [t1|] eqn:Ht1; [|discriminate].
  rewrite outcome_bind, outcome_call in H.
  destruct (fromstring E (str_parse_tree E p2)) as [t2|] eqn:Ht2; [|discriminate].
  rewrite outcome_bind, outcome_lift in H.
  destruct (tree_string_of E t1 (max_depth_of depth)) as [ts1|] eqn:Hts1;
    [|discriminate].
  rewrite outcome_bind, outcome_lift in H.
  destruct (tree_string_of E t2 (max_depth_of depth)) as [ts2|] eqn:Hts2;
    [|discriminate].
  rewrite outcome_bind, outcome_call in H.
  destruct (from_text E (clean_string ts1)) as [a1|] eqn:Ha1; [|discriminate].
  rewrite outcome_bind, outcome_call in H.
  destruct (from_text E (clean_string ts2)) as [a2|] eqn:Ha2; [|discriminate].
  rewrite outcome_bind, outcome_call in H. cbn in H. injection H as <-.
  exists s1, s2, p1, p2, t1, t2, ts1, ts2, a1, a2. repeat split; assumption.
Qed.

(** A run in which every step succeeds. *)
Lemma calculate_ted_run (s1 s2 : pystr) (depth : pyval)
      (p1 p2 : ParseTree E) (o1 o2 : list (ParseTree E))
      (t1 t2 : nltk) (ts1 ts2 : pystr) (a1 a2 : atree) :
  check_arguments (PyStr s1) (PyStr s2) depth = Ok tt ->
  nlp E s1 = Ok (p1 :: o1) -> nlp E s2 = Ok (p2 :: o2) ->
  fromstring E (str_parse_tree E p1) = Ok t1 ->
  fromstring E (str_parse_tree E p2) = Ok t2 ->
  tree_string_of E t1 (max_depth_of depth) = Ok ts1 ->
  tree_string_of E t2 (max_depth_of depth) = Ok ts2 ->
  from_text E (clean_string ts1) = Ok a1 ->
  from_text E (clean_string ts2) = Ok a2 ->
  calculate_ted E (PyStr s1) (PyStr s2) depth
  = ([EvPipeline s1; EvPipeline s2;
      EvFromString (str_parse_tree E p1); EvFromString (str_parse_tree E p2);
      EvFromText (clean_string ts1); EvFromText (clean_string ts2);
      EvDistance a1 a2],
     Ok (compute_edit_distance a1 a2)).
Proof.
  intros Hc Hp1 Hp2 Ht1 Ht2 Hts1 Hts2 Ha1 Ha2.
  unfold calculate_ted, lift. rewrite Hc, bind_ok. cbn [sentence_of].
  rewrite !bind_ok.
  rewrite (get_constituency_tree_ok _ Hp1), bind_ok.
  rewrite (get_constituency_tree_ok _ Hp2), bind_ok.
  cbv zeta. unfold call. rewrite Ht1, bind_ok, Ht2, bind_ok.
  rewrite Hts1, bind_ok, Hts2, bind_ok.
  rewrite Ha1, bind_ok, Ha2, bind_ok. rewrite bind_ok.
  reflexivity.
Qed.

End RunFacts.

(** C4.  The distance of a tree to itself is 0; and a run of
    [calculate_ted] on one sentence against itself, at any depth, that
    returns a distance returns 0. *)
Theorem distance_to_itself_is_zero
        (E : Collaborators) (T : atree) (sent depth : pyval) (v : nat)
        (Hrun : outcome (calculate_ted E sent sent depth) = Ok v) :
  compute_edit_distance T T = 0 /\ v = 0.
Proof.
  split; [apply engine_distance_self|].
  apply calculate_ted_inv in Hrun
    as (s1 & s2 & p1 & p2 & t1 & t2 & ts1 & ts2 & a1 & a2
        & -> & Hs & _ & Hp1 & Hp2 & Ht1 & Ht2 & Hts1 & Hts2 & Ha1 & Ha2 & ->).
  injection Hs as <-.
  rewrite Hp1 in Hp2. injection Hp2 as <-.
  rewrite Ht1 in Ht2. injection Ht2 as <-.
  rewrite Hts1 in Hts2. injection Hts2 as <-.
  rewrite Ha1 in Ha2. injection Ha2 as <-.
  apply engine_distance_self.
Qed.

Lemma distance_to_itself_is_zero_witness :
  compute_edit_distance (ANode (lit "a") [ANode (lit "b") []])
                        (ANode (lit "a") [ANode (lit "b") []]) = 0
  /\ 0 = 0.
Proof.
  apply (@distance_to_itself_is_zero Sample.collaborators
           (ANode (lit "a") [ANode (lit "b") []])
           (PyStr (lit "a b")) (PyInt 1) 0).
  vm_compute. reflexivity.
Defined.

(** C5.  Under the default costs the distance is symmetric: the engine
    gives the same value for [A], [B] and for [B], [A]; and when
    [calculate_ted] returns a distance for two sentences, it returns the
    same distance for them in the other order. *)
Theorem distance_is_symmetric
        (E : Collaborators) (A B : atree) (sent1 sent2 depth : pyval) (v : nat)
        (Hrun : outcome (calculate_ted E sent1 sent2 depth) = Ok v) :
  compute_edit_distance A B = compute_edit_distance B A
  /\ outcome (calculate_ted E sent2 sent1 depth) = Ok v.
Proof.
  split; [apply engine_distance_sym|].
  apply calculate_ted_inv in Hrun
    as (s1 & s2 & p1 & p2 & t1 & t2 & ts1 & ts2 & a1 & a2
        & -> & -> & Hc & Hp1 & Hp2 & Ht1 & Ht2 & Hts1 & Hts2 & Ha1 & Ha2 & ->).
  apply get_constituency_tree_inv in Hp1 as [o1 Hp1].
  apply get_constituency_tree_inv in Hp2 as [o2 Hp2].
  assert (Hc' : check_arguments (PyStr s2) (PyStr s1) depth = Ok tt).
  { apply check_arguments_ok in Hc as (_ & _ & Hd).
    apply check_arguments_ok. repeat split; assumption. }
  rewrite (calculate_ted_run E s2 s1 depth Hc' Hp2 Hp1 Ht2 Ht1 Hts2 Hts1 Ha2 Ha1).
  cbn [outcome snd]. rewrite engine_distance_sym. reflexivity.
Qed.

Lemma distance_is_symmetric_witness :
  compute_edit_distance (ANode (lit "a") [ANode (lit "b") []]) (ANode (lit "c") [])
  = compute_edit_distance (ANode (lit "c") []) (ANode (lit "a") [ANode (lit "b") []])
  /\ outcome (calculate_ted Sample.collaborators (PyStr (lit "a c"))
                            (PyStr (lit "a b")) (PyStr (lit "full"))) = Ok 1.
Proof.
  apply (@distance_is_symmetric Sample.collaborators
           (ANode (lit "a") [ANode (lit "b") []]) (ANode (lit "c") [])
           (PyStr (lit "a b")) (PyStr (lit "a c")) (PyStr (lit "full")) 1).
  vm_compute. reflexivity.
Defined.




(** C2, as the code has it.  A depth that is a negative int, or that is
    neither a str nor an int, is rejected with [TypeError] before any
    call to a collaborator: no sentence is parsed and no distance is
    computed. *)
Theorem wrong_depth_rejected_before_any_work
        (E : Collaborators) (sent1 sent2 depth : pyval)
        (Hdepth : (exists z, depth = PyInt z /\ (z < 0)%Z)
                  \/ (isinstance_str depth = false /\ isinstance_int depth = false)) :
  calculate_ted E sent1 sent2 depth = ([], Err TypeError).
Proof.
  unfold calculate_ted, lift.
  assert (Hc : check_arguments sent1 sent2 depth = Err TypeError).
  { destruct (check_arguments_cases sent1 sent2 depth) as [Hok|Herr]; [|exact Herr].
    apply check_arguments_ok in Hok as (_ & _ & [Hs|(z & -> & Hz)]).
    - destruct Hdepth as [(z & -> & _)|[Hn _]]; [discriminate|congruence].
    - destruct Hdepth as [(z' & Hz' & Hneg)|[_ Hn]]; [|discriminate].
      injection Hz' as <-. lia. }
  rewrite Hc. reflexivity.
Qed.

Lemma wrong_depth_rejected_before_any_work_witness :
  calculate_ted Sample.collaborators (PyStr (lit "a b")) (PyStr (lit "a c"))
                (PyInt (-1)) = ([], Err TypeError).
Proof.
  apply (@wrong_depth_rejected_before_any_work Sample.collaborators
           (PyStr (lit "a b")) (PyStr (lit "a c")) (PyInt (-1))).
  left. exists (-1)%Z. split; [reflexivity | lia].
Defined.

(** C2, as the claim states it, fails: the depth ['abc'] is neither the
    sentinel ['full'] nor a non-negative integer, yet the checks let it
    through; both sentences are parsed before the run ends in the
    [TypeError] of comparing an int with a str. *)
Lemma string_depth_is_not_rejected_up_front :
  check_arguments (PyStr (lit "a b")) (PyStr (lit "a c")) (PyStr (lit "abc")) = Ok tt
  /\ calculate_ted Sample.collaborators (PyStr (lit "a b")) (PyStr (lit "a c"))
                   (PyStr (lit "abc"))
     = ([EvPipeline (lit "a b"); EvPipeline (lit "a c");
         EvFromString (lit "(S (NP (DT a)) (VP (V b)))");
         EvFromString (lit "(S (NP (DT a)) (VP (V c)))")],
        Err TypeError).
Proof. split; vm_compute; reflexivity. Qed.

(** ** The parser of bracketed text *)

Section ParserFacts.

Lemma token_nesting_flush (w : pystr) (toks : list token) (d : nat) :
  token_nesting d (flush w ++ toks) = token_nesting d toks.
Proof. destruct w; reflexivity. Qed.

Lemma tokenize_nesting (s : pystr) :
  forall w d, token_nesting d (tokenize_from w s) = nesting d s.
Proof.
  induction s as [|c r IH]; intros w d; cbn [tokenize_from nesting].
  - rewrite <- (app_nil_r (flush w)), token_nesting_flush. reflexivity.
  - destruct (N.eqb c LPAREN).
    { rewrite token_nesting_flush. cbn [token_nesting]. apply IH. }
    destruct (N.eqb c RPAREN).
    { rewrite token_nesting_flush. cbn [token_nesting].
      destruct d; [reflexivity | apply IH]. }
    destruct (is_space c); [rewrite token_nesting_flush|]; apply IH.
Qed.

(** The parser only fails with [FormatError]. *)
Lemma parse_token_error (st : parser) (tok : token) (e : exn) :
  parse_token st tok = Err e -> e = FormatError.
Proof.
  destruct st as [stack fin], tok as [| |w]; cbn [parse_token open_nodes finished].
  - destruct fin; [congruence|].
    destruct stack as [|[[l|] ks] stack]; congruence.
  - destruct stack as [|[[l|] ks] stack]; try congruence.
    destruct ks; [congruence|].
    destruct stack as [|[pl pks] stack']; congruence.
  - destruct stack as [|[[l|] ks] stack]; congruence.
Qed.

Lemma parse_tokens_error (toks : list token) :
  forall st e, parse_tokens st toks = Err e -> e = FormatError.
Proof.
  induction toks as [|tok rest IH]; intros st e; cbn [parse_tokens];
    [discriminate|].
  destruct (parse_token st tok) as [st'|e'] eqn:Htok.
  - apply IH.
  - intros H; injection H as <-. eapply parse_token_error; eassumption.
Qed.

Lemma parse_error (text : pystr) (e : exn) :
  parse text = Err e -> e = FormatError.
Proof.
  unfold parse.
  destruct (parse_tokens parser_init (tokenize text)) as [[stack fin]|e'] eqn:Hp.
  - destruct stack; [destruct fin|]; congruence.
  - intros H; injection H as <-. eapply parse_tokens_error; eassumption.
Qed.

Lemma parse_cases (text : pystr) :
  (exists t, parse text = Ok t) \/ parse text = Err FormatError.
Proof.
  destruct (parse text) as [t|e] eqn:H; [left; eauto|].
  right. apply parse_error in H. congruence.
Qed.

(** The open nodes of the parser are the open parentheses. *)
Lemma parse_token_nesting (st st' : parser) (tok : token) :
  parse_token st tok = Ok st' ->
  token_nesting (length (open_nodes st)) [tok] = Some (length (open_nodes st')).
Proof.
  destruct st as [stack fin], tok as [| |w];
    cbn [parse_token open_nodes finished token_nesting].
  - destruct fin; [discriminate|].
    destruct stack as [|[[l|] ks] stack]; try discriminate;
      intros H; injection H as <-; reflexivity.
  - destruct stack as [|[[l|] ks] stack]; try discriminate.
    destruct ks as [|k ks]; [discriminate|].
    destruct stack as [|[pl pks] stack']; intros H; injection H as <-;
      reflexivity.
  - destruct stack as [|[[l|] ks] stack]; try discriminate;
      intros H; injection H as <-; reflexivity.
Qed.

Lemma parse_tokens_nesting (toks : list token) :
  forall st st',
    parse_tokens st toks = Ok st' ->
    token_nesting (length (open_nodes st)) toks = Some (length (open_nodes st')).
Proof.
  induction toks as [|tok rest IH]; intros st st'; cbn [parse_tokens].
  - intros H; injection H as <-. reflexivity.
  - destruct (parse_token st tok) as [st1|] eqn:Htok; [|discriminate].
    intros H. apply IH in H. apply parse_token_nesting in Htok.
    destruct tok as [| |w]; cbn [token_nesting] in *.
    + injection Htok as Htok. rewrite Htok. exact H.
    + destruct (length (open_nodes st)); [discriminate|].
      injection Htok as Htok. rewrite Htok. exact H.
    + injection Htok as Htok. rewrite Htok. exact H.
Qed.

(** A text that parses has balanced parentheses. *)
Lemma parse_balanced (text : pystr) (t : nltk) :
  parse text = Ok t -> balanced text = true.
Proof.
  unfold parse, balanced.
  destruct (parse_tokens parser_init (tokenize text)) as [[stack fin]|] eqn:Hp;
    [|discriminate].
  destruct stack; [|discriminate]. intros _.
  apply parse_tokens_nesting in Hp. unfold tokenize in Hp.
  rewrite tokenize_nesting in Hp. cbn in Hp. rewrite Hp. reflexivity.
Qed.

(** Tokens up to a parenthesis. *)
Lemma tokenize_app_paren (p rest : pystr) :
  forall w,
    tokenize_from w (p ++ LPAREN :: rest)
    = tokenize_from w p ++ TOpen :: tokenize_from [] rest.
Proof.
  induction p as [|c p IH]; intros w.
  - reflexivity.
  - cbn [app tokenize_from].
    destruct (N.eqb c LPAREN); [rewrite IH, <- !app_assoc; reflexivity|].
    destruct (N.eqb c RPAREN); [rewrite IH, <- !app_assoc; reflexivity|].
    destruct (is_space c); [rewrite IH, <- !app_assoc; reflexivity|].
    apply IH.
Qed.

Lemma tokenize_spaces (ws rest : pystr) :
  forallb is_space ws = true ->
  tokenize_from [] (ws ++ rest) = tokenize_from [] rest.
Proof.
  induction ws as [|c ws IH]; [reflexivity|].
  cbn [forallb app]. intros H. apply andb_true_iff in H as [Hc Hws].
  cbn [tokenize_from].
  assert (N.eqb c LPAREN = false) as ->.
  { destruct (N.eqb_spec c LPAREN) as [->|]; [discriminate Hc | reflexivity]. }
  assert (N.eqb c RPAREN = false) as ->.
  { destruct (N.eqb_spec c RPAREN) as [->|]; [discriminate Hc | reflexivity]. }
  rewrite Hc. apply IH. exact Hws.
Qed.

Lemma parse_tokens_app (a b : list token) :
  forall st,
    parse_tokens st (a ++ b)
    = match parse_tokens st a with
      | Ok st' => parse_tokens st' b
      | Err e => Err e
      end.
Proof.
  induction a as [|tok a IH]; intros st; cbn [app parse_tokens]; [reflexivity|].
  destruct (parse_token st tok); [apply IH | reflexivity].
Qed.

(** After an opening parenthesis a parenthesis is not a label. *)
Lemma parse_tokens_no_label (st : parser) (tok : token) (rest : list token) :
  tok = TOpen \/ tok = TClose ->
  exists e, parse_tokens st (TOpen :: tok :: rest) = Err e.
Proof.
  intros Htok. cbn [parse_tokens].
  destruct (parse_token st TOpen) as [st1|e] eqn:H1; [|eauto].
  assert (Hst1 : exists stack, st1 = Parser (Frame None [] :: stack) None).
  { destruct st as [stack fin]. cbn [parse_token open_nodes finished] in H1.
    destruct fin; [discriminate|].
    destruct stack as [|[[l|] ks] stack]; try discriminate;
      injection H1 as <-; eauto. }
  destruct Hst1 as [stack ->].
  destruct Htok as [->| ->]; cbn; eauto.
Qed.

Lemma parse_missing_label (p ws r : pystr) (c : char) :
  forallb is_space ws = true -> c = LPAREN \/ c = RPAREN ->
  parse (p ++ LPAREN :: ws ++ c :: r) = Err FormatError.
Proof.
  intros Hws Hc.
  destruct (parse_cases (p ++ LPAREN :: ws ++ c :: r)) as [[t Ht]|]; [|assumption].
  exfalso. unfold parse, tokenize in Ht.
  rewrite tokenize_app_paren, (@tokenize_spaces ws (c :: r) Hws) in Ht.
  rewrite parse_tokens_app in Ht.
  destruct (parse_tokens parser_init (tokenize_from [] p)) as [st|]; [|discriminate].
  assert (Htoks : exists tok rest, (tok = TOpen \/ tok = TClose) /\
                    tokenize_from [] (c :: r) = tok :: rest).
  { destruct Hc as [->| ->]; cbn; eauto. }
  destruct Htoks as (tok & rest & Htok & Heq). rewrite Heq in Ht.
  destruct (parse_tokens_no_label st rest Htok) as [e He].
  rewrite He in Ht. discriminate.
Qed.

Lemma parse_blank (text : pystr) :
  forallb is_space text = true -> parse text = Err FormatError.
Proof.
  intros H. unfold parse, tokenize.
  rewrite <- (app_nil_r text), (@tokenize_spaces text [] H). reflexivity.
Qed.

End ParserFacts.

(** C9.  The parser fails with [FormatError] on a text with unbalanced
    parentheses (such as [(S (NP]), on a text in which an opening
    parenthesis is followed by a parenthesis instead of a label, and on
    empty or blank input.  In [calculate_ted] the failure of the parse of
    the first tree ends the run at once with that error: the parser is
    called once and nothing is called after it. *)
Theorem malformed_text_fails_at_once
        (text p ws r blank : pystr) (c : char)
        (E : Collaborators) (s1 s2 : pystr) (depth : pyval)
        (p1 p2 : ParseTree E) (o1 o2 : list (ParseTree E))
        (Hunbalanced : balanced text = false)
        (Hws : forallb is_space ws = true)
        (Hc : c = LPAREN \/ c = RPAREN)
        (Hblank : forallb is_space blank = true)
        (Hparser : forall x, fromstring E x = parse x)
        (Hargs : check_arguments (PyStr s1) (PyStr s2) depth = Ok tt)
        (Hnlp1 : nlp E s1 = Ok (p1 :: o1))
        (Hnlp2 : nlp E s2 = Ok (p2 :: o2))
        (Hbad : parse (str_parse_tree E p1) = Err FormatError) :
  parse text = Err FormatError
  /\ parse (p ++ LPAREN :: ws ++ c :: r) = Err FormatError
  /\ parse blank = Err FormatError
  /\ parse [] = Err FormatError
  /\ parse (lit "(S (NP") = Err FormatError
  /\ calculate_ted E (PyStr s1) (PyStr s2) depth
     = ([EvPipeline s1; EvPipeline s2; EvFromString (str_parse_tree E p1)],
        Err FormatError).
Proof.
  split.
  { destruct (parse_cases text) as [[t Ht]|]; [|assumption].
    apply parse_balanced in Ht. congruence. }
  split; [apply parse_missing_label; assumption|].
  split; [apply parse_blank; assumption|].
  split; [reflexivity|]. split; [reflexivity|].
  unfold calculate_ted, lift. rewrite Hargs, bind_ok. cbn [sentence_of].
  rewrite !bind_ok.
  rewrite (get_constituency_tree_ok _ _ Hnlp1), bind_ok.
  rewrite (get_constituency_tree_ok _ _ Hnlp2), bind_ok.
  cbv zeta. unfold call. rewrite Hparser, Hbad. reflexivity.
Qed.

Lemma malformed_text_fails_at_once_witness :
  parse (lit "(S (NP a)))") = Err FormatError
  /\ parse (lit "(S " ++ LPAREN :: lit " " ++ LPAREN :: lit "NP a))") = Err FormatError
  /\ parse (lit "  ") = Err FormatError
  /\ parse [] = Err FormatError
  /\ parse (lit "(S (NP") = Err FormatError
  /\ calculate_ted Sample.echo (PyStr (lit "(S (NP")) (PyStr (lit "(S (NP a))"))
                   (PyStr (lit "full"))
     = ([EvPipeline (lit "(S (NP"); EvPipeline (lit "(S (NP a))");
         EvFromString (lit "(S (NP")],
        Err FormatError).
Proof.
  apply (@malformed_text_fails_at_once
           (lit "(S (NP a)))") (lit "(S ") (lit " ") (lit "NP a))") (lit "  ")
           LPAREN Sample.echo (lit "(S (NP") (lit "(S (NP a))") (PyStr (lit "full"))
           (lit "(S (NP") (lit "(S (NP a))") [] []).
  - reflexivity.
  - reflexivity.
  - left; reflexivity.
  - reflexivity.
  - intros x; reflexivity.
  - reflexivity.
  - reflexivity.
  - reflexivity.
  - reflexivity.
Defined.

(* ================================================================== *)
(** * Further properties of the code *)

(** ** Label stripping and cleaning *)

Section SubseqFacts.

Context {A : Type}.

Lemma subseq_refl (l : list A) : subseq l l.
Proof. induction l; constructor; assumption. Qed.

Lemma subseq_trans (a b c : list A) :
  subseq a b -> subseq b c -> subseq a c.
Proof.
  intros Hab Hbc. revert a Hab.
  induction Hbc as [|x b c _ IH|x b c _ IH]; intros a Hab.
  - exact Hab.
  - inversion Hab; subst.
    + constructor. apply IH. assumption.
    + apply subseq_skip. apply IH. assumption.
  - apply subseq_skip. apply IH. assumption.
Qed.

Lemma subseq_length (a b : list A) : subseq a b -> length a <= length b.
Proof. induction 1; simpl; lia. Qed.

Lemma subseq_filter (f : A -> bool) (l : list A) : subseq (filter f l) l.
Proof.
  induction l as [|x l IH]; simpl; [constructor|].
  destruct (f x); constructor; assumption.
Qed.

End SubseqFacts.

Section MoreStripFacts.

Lemma sub_label_subseq (s : pystr) :
  forall k, subseq (re_sub_from match_label [LPAREN] k s) s.
Proof.
  induction s as [|c r IH]; intros k; [constructor|].
  cbn [re_sub_from]. destruct k as [|k]; [|apply subseq_skip, IH].
  destruct (match_label (c :: r)) as [[|n]|] eqn:Hm.
  - constructor. apply IH.
  - apply match_label_inv in Hm as (L & q & Heq & _).
    injection Heq as -> _. cbn [app]. constructor. apply IH.
  - constructor. apply IH.
Qed.

Lemma forallb_no_space_existsb (s : pystr) :
  forallb no_space s = true -> forall c, In c s -> is_space c = false.
Proof.
  intros H c Hin. rewrite forallb_forall in H. apply H in Hin.
  unfold no_space in Hin. destruct (is_space c); [discriminate | reflexivity].
Qed.

Lemma strip_fixed (s : pystr) :
  forallb no_space s = true -> remove_non_terminal_labels s = s.
Proof.
  intros H. rewrite strip_is_filter, sub_label_no_space by assumption.
  apply filter_no_space_id; assumption.
Qed.

Lemma replace_char_absent (old new : char) (s : pystr) :
  ~ In old s -> replace_char old new s = s.
Proof.
  induction s as [|c r IH]; intros H; [reflexivity|].
  cbn [replace_char List.map]. destruct (N.eqb_spec c old) as [->|_].
  - exfalso. apply H. left; reflexivity.
  - f_equal. apply IH. intros Hin. apply H. right; assumption.
Qed.

(** The characters of a cleaned string. *)
Lemma clean_string_chars (s : pystr) (c : char) :
  In c (clean_string s) -> c <> LPAREN /\ c <> RPAREN /\ is_space c = false.
Proof.
  unfold clean_string, replace_char. cbv zeta. intros Hin.
  apply in_map_iff in Hin as (b & <- & Hin).
  apply in_map_iff in Hin as (a & <- & Hin).
  pose proof (forallb_no_space_existsb _ (strip_no_space s) _ Hin) as Ha.
  destruct (N.eqb_spec a RPAREN) as [->|Har].
  - repeat split; discriminate.
  - destruct (N.eqb_spec a LPAREN) as [->|Hal].
    + repeat split; discriminate.
    + repeat split; assumption.
Qed.

Lemma clean_string_fixed (s : pystr) :
  (forall c, In c s -> c <> LPAREN /\ c <> RPAREN /\ is_space c = false) ->
  clean_string s = s.
Proof.
  intros H. unfold clean_string. cbv zeta.
  rewrite strip_fixed.
  - rewrite (@replace_char_absent RPAREN RBRACE s),
            (@replace_char_absent LPAREN LBRACE s);
      try reflexivity; intros Hin; apply H in Hin; tauto.
  - apply forallb_forall. intros c Hin. apply H in Hin as (_ & _ & Hc).
    unfold no_space. rewrite Hc. reflexivity.
Qed.

End MoreStripFacts.

(** X1.  [remove_non_terminal_labels] only leaves characters out: its
    result is the input with some characters dropped, in the same order,
    and so never longer than the input. *)
Theorem strip_only_drops_characters (s : pystr) :
  subseq (remove_non_terminal_labels s) s
  /\ length (remove_non_terminal_labels s) <= length s.
Proof.
  assert (H : subseq (remove_non_terminal_labels s) s).
  { rewrite strip_is_filter.
    eapply subseq_trans; [apply subseq_filter | apply sub_label_subseq]. }
  split; [exact H | apply subseq_length; exact H].
Qed.

(** X2.  A character that is neither white space nor one of [A-Z] and
    [$] is never dropped by [remove_non_terminal_labels]: it occurs in the
    result as often as in the input. *)
Theorem strip_keeps_other_characters (x : char) (s : pystr)
        (Hlabel : is_label_char x = false) (Hspace : is_space x = false) :
  count_occ N.eq_dec (remove_non_terminal_labels s) x = count_occ N.eq_dec s x.
Proof.
  rewrite strip_is_filter, filter_no_space_count by assumption.
  apply re_sub_label_count; [assumption|]. intros ->. discriminate.
Qed.

Lemma strip_keeps_other_characters_witness :
  count_occ N.eq_dec (remove_non_terminal_labels (lit "(S (NP the cat))")) 116%N
  = count_occ N.eq_dec (lit "(S (NP the cat))") 116%N.
Proof.
  apply (@strip_keeps_other_characters 116%N (lit "(S (NP the cat))"));
    reflexivity.
Defined.

(** X3.  The strings that [remove_non_terminal_labels] leaves unchanged
    are exactly the strings without white space. *)
Theorem strip_fixed_points (s : pystr) :
  remove_non_terminal_labels s = s <-> forallb no_space s = true.
Proof.
  split.
  - intros H. rewrite <- H. apply strip_no_space.
  - apply strip_fixed.
Qed.

(** X4.  [clean_string] is idempotent; so the second cleaning that
    [calculate_ted] applies in the ['full'] mode to the result of
    [nltk_tree_to_bracket_string] changes nothing. *)
Theorem clean_string_idempotent (E : Collaborators) (s : pystr) (t : nltk) :
  clean_string (clean_string s) = clean_string s
  /\ clean_string (nltk_tree_to_bracket_string E t) = nltk_tree_to_bracket_string E t.
Proof.
  split.
  - apply clean_string_fixed. apply clean_string_chars.
  - change (nltk_tree_to_bracket_string E t) with (clean_string (str_nltk E t)).
    apply clean_string_fixed. apply clean_string_chars.
Qed.

(** ** The depth-limited rendering *)

Section MoreRenderFacts.

Lemma for_children_ok (f : nltk -> result pystr) (l : list nltk) :
  forall acc s,
    for_children f l acc = Ok s ->
    exists ss, Forall2 (fun c x => f c = Ok x) l ss /\
               s = acc ++ concat ss ++ [RPAREN].
Proof.
  induction l as [|c l IH]; intros acc s; cbn [for_children].
  - intros H; injection H as <-. exists []. split; [constructor | reflexivity].
  - destruct (f c) as [x|] eqn:Hc; [|discriminate].
    intros H. apply IH in H as (ss & Hall & ->).
    exists (x :: ss). split; [constructor; assumption|].
    cbn [concat]. rewrite <- !app_assoc. reflexivity.
Qed.

Lemma for_children_outcome (f : nltk -> result pystr) (ok : nltk -> bool)
      (l : list nltk) :
  Forall (fun c => exists s, f c = if ok c then Ok s else Err AttributeError) l ->
  forall acc,
    exists s, for_children f l acc
              = if forallb ok l then Ok s else Err AttributeError.
Proof.
  induction 1 as [|c l [x Hc] _ IH]; intros acc; cbn [for_children forallb].
  - eexists; reflexivity.
  - rewrite Hc. destruct (ok c); cbn [andb].
    + apply IH.
    + exists []. reflexivity.
Qed.

(** Without a limit the rendering fails exactly on a stray token. *)
Lemma render_unlimited_outcome (t : nltk) :
  forall cur,
    exists s, nltk_tree_to_n_bracket_string t PyNone cur
              = if no_stray_token t then Ok s else Err AttributeError.
Proof.
  induction t as [tok|label cs IH] using nltk_forall_ind; intros cur.
  - destruct tok; exists []; reflexivity.
  - destruct cs as [|c cs]; [exists []; reflexivity|].
    rewrite render_tree_eq. cbn [past_max_depth].
    change (no_stray_token (Tree label (c :: cs)))
      with (if 2 <? height (Tree label (c :: cs))
            then forallb no_stray_token (c :: cs) else true).
    destruct (2 <? height (Tree label (c :: cs))); [|eexists; reflexivity].
    apply for_children_outcome.
    apply Forall_forall. intros x Hx. rewrite Forall_forall in IH.
    apply IH. assumption.
Qed.

(** With an int as limit the rendering of a tree without stray token
    does not fail. *)
Lemma render_limited_ok (t : nltk) :
  no_stray_token t = true ->
  forall md cur, exists s, nltk_tree_to_n_bracket_string t (PyInt md) cur = Ok s.
Proof.
  induction t as [tok|label cs IH] using nltk_forall_ind; intros Hok md cur.
  - destruct tok; [|discriminate].
    cbn. destruct (md <? cur)%Z; eexists; reflexivity.
  - destruct cs as [|c cs].
    { cbn. destruct (md <? cur)%Z; eexists; reflexivity. }
    rewrite render_tree_eq. cbn [past_max_depth int_gt].
    destruct (md <? cur)%Z; [eexists; reflexivity|].
    change (no_stray_token (Tree label (c :: cs)))
      with (if 2 <? height (Tree label (c :: cs))
            then forallb no_stray_token (c :: cs) else true) in Hok.
    destruct (2 <? height (Tree label (c :: cs))); [|eexists; reflexivity].
    destruct (@for_children_outcome
                (fun child => nltk_tree_to_n_bracket_string child (PyInt md) (cur + 1))
                (fun _ => true) (c :: cs)) with (acc := [LPAREN] ++ label ++ [SPACE])
      as [s Hs].
    + apply Forall_forall. intros x Hx. rewrite Forall_forall in IH.
      rewrite forallb_forall in Hok. apply IH; auto.
    + exists s. rewrite Hs.
      replace (forallb (fun _ : nltk => true) (c :: cs)) with true; [reflexivity|].
      symmetry. apply forallb_forall. reflexivity.
Qed.

(** Only the difference of the limit and the depth counts. *)
Lemma render_shift (t : nltk) :
  forall md cur k,
    nltk_tree_to_n_bracket_string t (PyInt (md + k)) (cur + k)
    = nltk_tree_to_n_bracket_string t (PyInt md) cur.
Proof.
  induction t as [tok|label cs IH] using nltk_forall_ind; intros md cur k.
  - cbn [nltk_tree_to_n_bracket_string past_max_depth int_gt].
    replace (md + k <? cur + k)%Z with (md <? cur)%Z; [reflexivity|].
    destruct (Z.ltb_spec md cur); symmetry; [apply Z.ltb_lt | apply Z.ltb_ge]; lia.
  - assert (Hlt : (md + k <? cur + k)%Z = (md <? cur)%Z).
    { destruct (Z.ltb_spec md cur); [apply Z.ltb_lt | apply Z.ltb_ge]; lia. }
    destruct cs as [|c cs].
    + cbn [nltk_tree_to_n_bracket_string past_max_depth int_gt].
      rewrite Hlt. reflexivity.
    + rewrite !render_tree_eq. cbn [past_max_depth int_gt]. rewrite Hlt.
      destruct (md <? cur)%Z; [reflexivity|].
      destruct (2 <? height (Tree label (c :: cs))); [|reflexivity].
      apply for_children_ext.
      apply Forall_forall. intros x Hx. rewrite Forall_forall in IH.
      replace (cur + k + 1)%Z with (cur + 1 + k)%Z by lia. apply IH. assumption.
Qed.

End MoreRenderFacts.

(** X5.  The depth is relative: raising the limit and the starting depth
    of [nltk_tree_to_n_bracket_string] by the same amount does not change
    the result. *)
Theorem render_depth_is_relative (t : nltk) (max_depth current_depth k : Z) :
  nltk_tree_to_n_bracket_string t (PyInt (max_depth + k)) (current_depth + k)
  = nltk_tree_to_n_bracket_string t (PyInt max_depth) current_depth.
Proof. apply render_shift. Qed.

(** X6.  Without a depth limit [nltk_tree_to_n_bracket_string] returns a
    string when no node higher than 2 has a non-empty str among its
    children (and the argument is not itself a non-empty str), and raises
    [AttributeError] otherwise. *)
Theorem render_fails_exactly_on_stray_tokens (t : nltk) (current_depth : Z) :
  exists s,
    nltk_tree_to_n_bracket_string t PyNone current_depth
    = if no_stray_token t then Ok s else Err AttributeError.
Proof. apply render_unlimited_outcome. Qed.

(** X7.  A depth limit never makes the rendering fail: on a tree that
    renders without limit, it returns a string for every int limit and
    every starting depth. *)
Theorem render_with_limit_succeeds (t : nltk) (max_depth current_depth : Z)
        (Hok : no_stray_token t = true) :
  exists s, nltk_tree_to_n_bracket_string t (PyInt max_depth) current_depth = Ok s.
Proof. apply render_limited_ok. assumption. Qed.

Lemma render_with_limit_succeeds_witness :
  exists s, nltk_tree_to_n_bracket_string t_ab (PyInt 1) 0 = Ok s.
Proof.
  apply (@render_with_limit_succeeds t_ab 1 0). reflexivity.
Defined.

Section BalanceFacts.

Lemma nesting_app (a b : pystr) :
  forall d e, nesting d a = Some e -> nesting d (a ++ b) = nesting e b.
Proof.
  induction a as [|c a IH]; intros d e; cbn [nesting app].
  - intros H; injection H as <-. reflexivity.
  - destruct (N.eqb c LPAREN); [apply IH|].
    destruct (N.eqb c RPAREN); [|apply IH].
    destruct d; [discriminate | apply IH].
Qed.

Lemma nesting_shift (s : pystr) :
  forall d e k, nesting d s = Some e -> nesting (d + k) s = Some (e + k).
Proof.
  induction s as [|c s IH]; intros d e k; cbn [nesting].
  - intros H; injection H as <-. reflexivity.
  - destruct (N.eqb c LPAREN); [apply (IH (S d))|].
    destruct (N.eqb c RPAREN); [|apply IH].
    destruct d; [discriminate|]. apply (IH d).
Qed.

Lemma nesting_paren_free (s : pystr) (d : nat) :
  forallb paren_free_char s = true -> nesting d s = Some d.
Proof.
  induction s as [|c s IH]; cbn [forallb nesting]; [reflexivity|].
  unfold paren_free_char at 1. intros H.
  apply andb_true_iff in H as [Hc Hs]. apply andb_true_iff in Hc as [H1 H2].
  apply negb_true_iff in H1, H2. rewrite H1, H2. apply IH. assumption.
Qed.

Lemma paren_free_app (a b : pystr) :
  forallb paren_free_char (a ++ b)
  = forallb paren_free_char a && forallb paren_free_char b.
Proof. apply forallb_app. Qed.

Lemma paren_free_join (toks : list pystr) :
  Forall (fun tok => forallb paren_free_char tok = true) toks ->
  forallb paren_free_char (join [SPACE] toks) = true.
Proof.
  induction 1 as [|tok toks Htok _ IH]; [reflexivity|].
  destruct toks as [|tok' toks]; [exact Htok|].
  change (join [SPACE] (tok :: tok' :: toks))
    with (tok ++ [SPACE] ++ join [SPACE] (tok' :: toks)).
  rewrite !paren_free_app, Htok, IH. reflexivity.
Qed.

Lemma leaves_tree (label : pystr) (cs : list nltk) :
  leaves (Tree label cs) = concat (List.map leaves cs).
Proof.
  cbn [leaves]. induction cs as [|c cs IH]; [reflexivity|].
  cbn [List.map concat]. rewrite <- IH. reflexivity.
Qed.

Lemma leaves_forall (P : pystr -> Prop) (ok : nltk -> bool) (t : nltk) :
  (forall tok, ok (Leaf tok) = true -> P tok) ->
  (forall label cs, ok (Tree label cs) = true -> forallb ok cs = true) ->
  ok t = true -> Forall P (leaves t).
Proof.
  intros HLeaf HTree.
  induction t as [tok|label cs IH] using nltk_forall_ind; intros Hok.
  - constructor; [apply HLeaf; assumption | constructor].
  - rewrite leaves_tree. apply HTree in Hok. rewrite forallb_forall in Hok.
    apply Forall_concat. apply Forall_map.
    apply Forall_forall. intros x Hx. rewrite Forall_forall in IH. auto.
Qed.

Lemma concat_neutral (ss : list pystr) (d : nat) :
  Forall (fun x => nesting 0 x = Some 0) ss -> nesting d (concat ss) = Some d.
Proof.
  induction 1 as [|x ss Hx _ IH]; [reflexivity|].
  cbn [concat]. rewrite (@nesting_app x (concat ss) d d); [exact IH|].
  apply (@nesting_shift x 0 0 d Hx).
Qed.

(** A rendering of a tree without parentheses in labels and tokens has
    balanced parentheses. *)
Lemma render_neutral (t : nltk) :
  paren_free_tree t = true ->
  forall md cur s,
    nltk_tree_to_n_bracket_string t md cur = Ok s -> nesting 0 s = Some 0.
Proof.
  induction t as [tok|label cs IH] using nltk_forall_ind; intros Hfree md cur s.
  - cbn [nltk_tree_to_n_bracket_string].
    destruct (past_max_depth md cur) as [[|]|]; try discriminate.
    + intros H; injection H as <-. reflexivity.
    + destruct tok; [|discriminate]. intros H; injection H as <-. reflexivity.
  - destruct cs as [|c cs].
    { cbn [nltk_tree_to_n_bracket_string].
      destruct (past_max_depth md cur) as [[|]|]; try discriminate;
        intros H; injection H as <-; reflexivity. }
    rewrite render_tree_eq.
    destruct (past_max_depth md cur) as [[|]|]; try discriminate.
    { intros H; injection H as <-. reflexivity. }
    pose proof Hfree as Hfree'.
    cbn [paren_free_tree] in Hfree'. apply andb_true_iff in Hfree' as [Hl Hcs].
    assert (Hhead : forall body,
               nesting 1 body = Some 1 ->
               nesting 0 (([LPAREN] ++ label ++ [SPACE]) ++ body ++ [RPAREN]) = Some 0).
    { intros body Hbody. rewrite <- !app_assoc. cbn [app nesting N.eqb].
      change (N.eqb LPAREN LPAREN) with true. cbv iota.
      rewrite (@nesting_app label _ 1 1) by (apply nesting_paren_free; exact Hl).
      cbn [app nesting]. change (N.eqb SPACE LPAREN) with false.
      change (N.eqb SPACE RPAREN) with false. cbv iota.
      rewrite (@nesting_app body _ 1 1 Hbody). reflexivity. }
    destruct (2 <? height (Tree label (c :: cs))).
    + intros H. apply for_children_ok in H as (ss & Hall & ->).
      apply Hhead. apply concat_neutral.
      rewrite Forall_forall in IH. rewrite forallb_forall in Hcs.
      clear Hhead Hfree. induction Hall as [|x y l l' Hxy Hall IHall];
        constructor.
      * apply (IH x (or_introl eq_refl) (Hcs x (or_introl eq_refl)) _ _ _ Hxy).
      * apply IHall; intros z Hz; [apply IH | apply Hcs]; right; assumption.
    + intros H; injection H as <-. apply Hhead.
      apply nesting_paren_free, paren_free_join.
      apply (@leaves_forall (fun tok => forallb paren_free_char tok = true)
               paren_free_tree (Tree label (c :: cs))); try assumption.
      * intros tok Htok. exact Htok.
      * intros l0 cs0 H0. cbn [paren_free_tree] in H0.
        apply andb_true_iff in H0 as [_ H0]. exact H0.
Qed.

End BalanceFacts.

(** X8.  When no label and no token of the tree has a parenthesis, every
    string that [nltk_tree_to_n_bracket_string] returns, with or without
    limit, has balanced parentheses. *)
Theorem render_is_balanced (t : nltk) (max_depth : pyval) (current_depth : Z)
        (s : pystr)
        (Hfree : paren_free_tree t = true)
        (Hrender : nltk_tree_to_n_bracket_string t max_depth current_depth = Ok s) :
  balanced s = true.
Proof.
  unfold balanced. rewrite (render_neutral t Hfree _ _ Hrender). reflexivity.
Qed.

Lemma render_is_balanced_witness :
  balanced (lit "(S (NP )(VP ))") = true.
Proof.
  apply (@render_is_balanced t_ab (PyInt 1) 0 (lit "(S (NP )(VP ))"));
    reflexivity.
Defined.

Section SkeletonFacts.

Let strip1 := re_sub match_label [LPAREN].

Let braces (l : pystr) : pystr :=
  replace_char LPAREN LBRACE (replace_char RPAREN RBRACE l).

Lemma token_char_inv (c : char) :
  token_char c = true -> is_space c = false /\ c <> LPAREN /\ c <> RPAREN.
Proof.
  unfold token_char, no_space. intros H.
  apply andb_true_iff in H as [H H3]. apply andb_true_iff in H as [H1 H2].
  apply negb_true_iff in H1, H2, H3. apply N.eqb_neq in H2, H3. auto.
Qed.

Lemma strip1_no_lparen (q x : pystr) :
  ~ In LPAREN q -> strip1 (q ++ x) = q ++ strip1 x.
Proof.
  unfold strip1, re_sub. induction q as [|c q IH]; intros H; [reflexivity|].
  cbn [app re_sub_from match_label].
  destruct (N.eqb_spec c LPAREN) as [->|_].
  - exfalso. apply H. left; reflexivity.
  - f_equal. apply IH. intros Hin. apply H. right; assumption.
Qed.

Lemma strip1_rparen (rest : pystr) :
  strip1 (RPAREN :: rest) = RPAREN :: strip1 rest.
Proof. reflexivity. Qed.

Lemma strip1_label (L q : pystr) :
  strippable L = true ->
  strip1 (([LPAREN] ++ L ++ [SPACE]) ++ q) = LPAREN :: strip1 q.
Proof.
  intros HL. unfold strippable in HL.
  assert (Hne : L <> []) by (destruct L; [discriminate | discriminate]).
  assert (Hlab : forallb is_label_char L = true) by (destruct L; [discriminate | exact HL]).
  rewrite <- !app_assoc. cbn [app].
  exact (@sub_label_removes [] L q Hne Hlab).
Qed.

Lemma braces_app (a b : pystr) : braces (a ++ b) = braces a ++ braces b.
Proof. unfold braces, replace_char. rewrite !map_app. reflexivity. Qed.

Lemma braces_tokens (l : pystr) :
  forallb token_char l = true -> braces l = l.
Proof.
  intros H. unfold braces.
  rewrite (@replace_char_absent RPAREN RBRACE l), (@replace_char_absent LPAREN LBRACE l);
    try reflexivity;
    intros Hin; rewrite forallb_forall in H; apply H, token_char_inv in Hin;
    tauto.
Qed.

Lemma filter_tokens (l : pystr) :
  forallb token_char l = true -> filter no_space l = l.
Proof.
  intros H. apply filter_no_space_id. apply forallb_forall. intros c Hin.
  rewrite forallb_forall in H. apply H, token_char_inv in Hin as [Hc _].
  unfold no_space. rewrite Hc. reflexivity.
Qed.

Lemma filter_join (toks : list pystr) :
  Forall (fun tok => forallb token_char tok = true) toks ->
  filter no_space (join [SPACE] toks) = concat toks
  /\ forallb token_char (concat toks) = true.
Proof.
  induction 1 as [|tok toks Htok _ [IH1 IH2]]; [split; reflexivity|].
  split.
  - destruct toks as [|tok' toks].
    + cbn [join concat]. rewrite app_nil_r. apply filter_tokens; assumption.
    + change (join [SPACE] (tok :: tok' :: toks))
        with (tok ++ [SPACE] ++ join [SPACE] (tok' :: toks)).
      rewrite !filter_app, IH1, filter_tokens by assumption. reflexivity.
  - cbn [concat]. rewrite forallb_app, Htok, IH2. reflexivity.
Qed.

Lemma join_no_lparen (toks : list pystr) :
  Forall (fun tok => forallb token_char tok = true) toks ->
  ~ In LPAREN (join [SPACE] toks).
Proof.
  induction 1 as [|tok toks Htok _ IH]; [intros []|].
  assert (Ht : ~ In LPAREN tok).
  { intros Hin. rewrite forallb_forall in Htok.
    apply Htok, token_char_inv in Hin. tauto. }
  destruct toks as [|tok' toks]; [exact Ht|].
  change (join [SPACE] (tok :: tok' :: toks))
    with (tok ++ [SPACE] ++ join [SPACE] (tok' :: toks)).
  intros Hin. apply in_app_or in Hin as [Hin|Hin]; [auto|].
  apply in_app_or in Hin as [Hin|Hin]; [|auto].
  destruct Hin as [Hin|[]]. discriminate Hin.
Qed.

(** Stripping the rendering of a plain tree, whatever follows it. *)
Lemma render_strip (t : nltk) :
  plain_tree t = true ->
  forall md cur s rest,
    nltk_tree_to_n_bracket_string t md cur = Ok s ->
    exists u, strip1 (s ++ rest) = u ++ strip1 rest
              /\ braces (filter no_space u) = skeleton t md cur.
Proof.
  induction t as [tok|label cs IH] using nltk_forall_ind;
    intros Hplain md cur s rest.
  - cbn [nltk_tree_to_n_bracket_string skeleton].
    destruct (past_max_depth md cur) as [[|]|]; try discriminate.
    + intros H; injection H as <-. exists []. split; reflexivity.
    + destruct tok; [|discriminate]. intros H; injection H as <-.
      exists []. split; reflexivity.
  - destruct cs as [|c cs].
    { cbn [nltk_tree_to_n_bracket_string skeleton].
      destruct (past_max_depth md cur) as [[|]|]; try discriminate;
        intros H; injection H as <-; exists []; split; reflexivity. }
    rewrite render_tree_eq.
    change (skeleton (Tree label (c :: cs)) md cur)
      with (match past_max_depth md cur with
            | Ok false =>
                [LBRACE]
                  ++ (if 2 <? height (Tree label (c :: cs))
                      then concat (List.map (fun x => skeleton x md (cur + 1)) (c :: cs))
                      else concat (leaves (Tree label (c :: cs))))
                  ++ [RBRACE]
            | _ => []
            end).
    destruct (past_max_depth md cur) as [[|]|]; try discriminate.
    { intros H; injection H as <-. exists []. split; reflexivity. }
    pose proof Hplain as Hplain'.
    cbn [plain_tree] in Hplain'. apply andb_true_iff in Hplain' as [Hl Hcs].
    destruct (2 <? height (Tree label (c :: cs))).
    + intros H. apply for_children_ok in H as (ss & Hall & ->).
      assert (Hkids : forall tail,
                 exists U, strip1 (concat ss ++ tail) = U ++ strip1 tail
                           /\ braces (filter no_space U)
                              = concat (List.map (fun x => skeleton x md (cur + 1)) (c :: cs))).
      { rewrite Forall_forall in IH. rewrite forallb_forall in Hcs.
        clear Hplain. revert IH Hcs.
        induction Hall as [|x y l l' Hxy Hall IHall]; intros IH Hcs tail.
        - exists []. split; reflexivity.
        - destruct (IHall (fun z Hz => IH z (or_intror Hz))
                          (fun z Hz => Hcs z (or_intror Hz)) tail)
            as (U & HU1 & HU2).
          destruct (IH x (or_introl eq_refl) (Hcs x (or_introl eq_refl))
                       md (cur + 1)%Z y (concat l' ++ tail) Hxy)
            as (u & Hu1 & Hu2).
          exists (u ++ U). split.
          + cbn [concat]. rewrite <- app_assoc, Hu1, HU1, app_assoc. reflexivity.
          + rewrite filter_app, braces_app, Hu2, HU2. reflexivity. }
      destruct (Hkids (RPAREN :: rest)) as (U & HU1 & HU2).
      exists (LPAREN :: U ++ [RPAREN]). split.
      * rewrite <- (app_assoc ([LPAREN] ++ label ++ [SPACE])).
        rewrite (@strip1_label label _ Hl), <- app_assoc. cbn [app].
        rewrite HU1, strip1_rparen, <- app_assoc. reflexivity.
      * cbn [filter]. change (no_space LPAREN) with true. cbv iota.
        rewrite filter_app.
        change (LPAREN :: filter no_space U ++ filter no_space [RPAREN])
          with ([LPAREN] ++ (filter no_space U ++ [RPAREN])).
        rewrite !braces_app, HU2. reflexivity.
    + intros H.
      assert (Hs : s = ([LPAREN] ++ label ++ [SPACE])
                         ++ join [SPACE] (leaves (Tree label (c :: cs))) ++ [RPAREN])
        by congruence.
      subst s. clear H.
      assert (Htoks : Forall (fun tok => forallb token_char tok = true)
                        (leaves (Tree label (c :: cs)))).
      { apply (@leaves_forall (fun tok => forallb token_char tok = true)
                 plain_tree (Tree label (c :: cs))); try assumption.
        - intros tok Htok. exact Htok.
        - intros l0 cs0 H0. cbn [plain_tree] in H0.
          apply andb_true_iff in H0 as [_ H0]. exact H0. }
      destruct (filter_join Htoks) as [Hf Hc].
      exists (LPAREN :: join [SPACE] (leaves (Tree label (c :: cs))) ++ [RPAREN]).
      split.
      * rewrite <- (app_assoc ([LPAREN] ++ label ++ [SPACE])).
        rewrite (@strip1_label label _ Hl), <- app_assoc. cbn [app].
        rewrite strip1_no_lparen by (apply join_no_lparen; exact Htoks).
        rewrite strip1_rparen, <- app_assoc. reflexivity.
      * cbn [filter]. change (no_space LPAREN) with true. cbv iota.
        rewrite filter_app, Hf.
        change (LPAREN :: concat (leaves (Tree label (c :: cs))) ++ filter no_space [RPAREN])
          with ([LPAREN] ++ (concat (leaves (Tree label (c :: cs))) ++ [RPAREN])).
        rewrite !braces_app, (braces_tokens _ Hc). reflexivity.
Qed.

Lemma clean_render_skeleton (t : nltk) (md : pyval) (cur : Z) (s : pystr) :
  plain_tree t = true ->
  nltk_tree_to_n_bracket_string t md cur = Ok s ->
  clean_string s = skeleton t md cur.
Proof.
  intros Hplain Hr.
  destruct (@render_strip t Hplain md cur s [] Hr) as (u & Hu1 & Hu2).
  rewrite app_nil_r in Hu1. unfold strip1 in Hu1.
  change (strip1 []) with (@nil N) in Hu1. rewrite app_nil_r in Hu1.
  unfold clean_string. cbv zeta. rewrite strip_is_filter, Hu1. exact Hu2.
Qed.

End SkeletonFacts.

(** X9.  For a tree whose labels all consist of [A-Z] and [$] and whose
    tokens have no white space and no parenthesis, cleaning a rendering
    of [nltk_tree_to_n_bracket_string] gives the brace skeleton of the
    tree: one pair of braces for every rendered node, the tokens of a
    node of height at most 2 run together without separator, and no
    label. *)
Theorem clean_rendering_is_skeleton
        (t : nltk) (max_depth : pyval) (current_depth : Z) (s : pystr)
        (Hplain : plain_tree t = true)
        (Hrender : nltk_tree_to_n_bracket_string t max_depth current_depth = Ok s) :
  clean_string s = skeleton t max_depth current_depth.
Proof. apply clean_render_skeleton; assumption. Qed.

Lemma clean_rendering_is_skeleton_witness :
  clean_string (lit "(S (NP (DT a))(VP (V b)))") = skeleton t_ab PyNone 0.
Proof.
  apply (@clean_rendering_is_skeleton t_ab PyNone 0 (lit "(S (NP (DT a))(VP (V b)))"));
    reflexivity.
Defined.

Example skeleton_ab : skeleton t_ab PyNone 0 = lit "{{{a}}{{b}}}".
Proof. reflexivity. Qed.

Example skeleton_flat :
  skeleton (Tree (lit "NP") [Leaf (lit "the"); Leaf (lit "cat")]) (PyInt 3) 0
  = lit "{thecat}".
Proof. reflexivity. Qed.

(** ** Runs of the calculator *)

Section MoreRunFacts.

Variable E : Collaborators.

Lemma calls_bind {A B} (m : M A) (k : A -> M B) :
  calls (bind m k)
  = calls m ++ match outcome m with
               | Ok a => calls (k a)
               | Err _ => []
               end.
Proof.
  destruct m as [log [a|e]]; cbn [bind calls outcome fst snd].
  - destruct (k a); reflexivity.
  - rewrite app_nil_r. reflexivity.
Qed.

Lemma render_str_limit (t : nltk) (d : pystr) (cur : Z) :
  nltk_tree_to_n_bracket_string t (PyStr d) cur = Err TypeError.
Proof. destruct t as [tok|label cs]; reflexivity. Qed.

Lemma max_depth_of_str (d : pystr) :
  d <> lit "full" -> max_depth_of (PyStr d) = PyStr d.
Proof.
  intros Hd. unfold max_depth_of, eq_full.
  destruct (str_eqb d (lit "full")) eqn:Heq; [|reflexivity].
  apply str_eqb_eq in Heq. contradiction.
Qed.

(** A run that gets as far as the rendering of the first tree and fails
    there. *)
Lemma calculate_ted_render_error (s1 s2 : pystr) (depth : pyval)
      (p1 p2 : ParseTree E) (o1 o2 : list (ParseTree E))
      (t1 t2 : nltk) (e : exn) :
  check_arguments (PyStr s1) (PyStr s2) depth = Ok tt ->
  nlp E s1 = Ok (p1 :: o1) -> nlp E s2 = Ok (p2 :: o2) ->
  fromstring E (str_parse_tree E p1) = Ok t1 ->
  fromstring E (str_parse_tree E p2) = Ok t2 ->
  tree_string_of E t1 (max_depth_of depth) = Err e ->
  calculate_ted E (PyStr s1) (PyStr s2) depth
  = ([EvPipeline s1; EvPipeline s2;
      EvFromString (str_parse_tree E p1); EvFromString (str_parse_tree E p2)],
     Err e).
Proof.
  intros Hc Hp1 Hp2 Ht1 Ht2 Hts1.
  unfold calculate_ted, lift. rewrite Hc, bind_ok. cbn [sentence_of].
  rewrite !bind_ok.
  rewrite (get_constituency_tree_ok _ _ Hp1), bind_ok.
  rewrite (get_constituency_tree_ok _ _ Hp2), bind_ok.
  cbv zeta. unfold call. rewrite Ht1, bind_ok, Ht2, bind_ok.
  rewrite Hts1. reflexivity.
Qed.

Lemma get_constituency_tree_empty (s : pystr) :
  nlp E s = Ok [] ->
  get_constituency_tree E s = ([EvPipeline s], Err IndexError).
Proof. intros H. unfold get_constituency_tree, call. rewrite H. reflexivity. Qed.

Lemma get_constituency_tree_calls (s : pystr) :
  calls (get_constituency_tree E s) = [EvPipeline s].
Proof. reflexivity. Qed.

End MoreRunFacts.

(** X10.  A str as [max_depth] makes [nltk_tree_to_n_bracket_string]
    raise [TypeError] on every tree.  So [calculate_ted] with a str other
    than ['full'] as depth never returns a distance: once both sentences
    are parsed and read by NLTK it raises [TypeError], before any call of
    [from_text] or of the engine. *)
Theorem string_depth_always_fails
        (E : Collaborators) (t : nltk) (current_depth : Z)
        (s1 s2 d : pystr)
        (p1 p2 : ParseTree E) (o1 o2 : list (ParseTree E)) (t1 t2 : nltk)
        (Hd : d <> lit "full")
        (Hnlp1 : nlp E s1 = Ok (p1 :: o1))
        (Hnlp2 : nlp E s2 = Ok (p2 :: o2))
        (Htree1 : fromstring E (str_parse_tree E p1) = Ok t1)
        (Htree2 : fromstring E (str_parse_tree E p2) = Ok t2) :
  nltk_tree_to_n_bracket_string t (PyStr d) current_depth = Err TypeError
  /\ calculate_ted E (PyStr s1) (PyStr s2) (PyStr d)
     = ([EvPipeline s1; EvPipeline s2;
         EvFromString (str_parse_tree E p1); EvFromString (str_parse_tree E p2)],
        Err TypeError).
Proof.
  split; [apply render_str_limit|].
  apply (@calculate_ted_render_error E s1 s2 (PyStr d) p1 p2 o1 o2 t1 t2);
    try assumption; try reflexivity.
  rewrite (max_depth_of_str Hd).
  destruct d as [|c d]; apply render_str_limit.
Qed.

Lemma string_depth_always_fails_witness :
  nltk_tree_to_n_bracket_string t_ab (PyStr (lit "3")) 0 = Err TypeError
  /\ calculate_ted Sample.collaborators (PyStr (lit "a b")) (PyStr (lit "a c"))
                   (PyStr (lit "3"))
     = ([EvPipeline (lit "a b"); EvPipeline (lit "a c");
         EvFromString (lit "(S (NP (DT a)) (VP (V b)))");
         EvFromString (lit "(S (NP (DT a)) (VP (V c)))")],
        Err TypeError).
Proof.
  apply (@string_depth_always_fails Sample.collaborators t_ab 0
           (lit "a b") (lit "a c") (lit "3") t_ab t_ac [] [] t_ab t_ac).
  - discriminate.
  - reflexivity.
  - reflexivity.
  - reflexivity.
  - reflexivity.
Defined.

(** X11.  At depth 0 every tree higher than 2 whose root label consists
    of [A-Z] and [$] is rendered as its label alone and cleaned to [{}]:
    [calculate_ted] then compares [{}] with [{}] and returns 0, whatever
    the two sentences are. *)
Theorem depth_zero_distance_is_zero
        (E : Collaborators) (s1 s2 : pystr)
        (p1 p2 : ParseTree E) (o1 o2 : list (ParseTree E))
        (l1 l2 : pystr) (cs1 cs2 : list nltk) (a : atree)
        (Hh1 : 2 < height (Tree l1 cs1)) (Hh2 : 2 < height (Tree l2 cs2))
        (Hl1 : strippable l1 = true) (Hl2 : strippable l2 = true)
        (Hnlp1 : nlp E s1 = Ok (p1 :: o1))
        (Hnlp2 : nlp E s2 = Ok (p2 :: o2))
        (Htree1 : fromstring E (str_parse_tree E p1) = Ok (Tree l1 cs1))
        (Htree2 : fromstring E (str_parse_tree E p2) = Ok (Tree l2 cs2))
        (Hskel : from_text E (lit "{}") = Ok a) :
  nltk_tree_to_n_bracket_string (Tree l1 cs1) (PyInt 0) 0
  = Ok ([LPAREN] ++ l1 ++ [SPACE] ++ [RPAREN])
  /\ clean_string ([LPAREN] ++ l1 ++ [SPACE] ++ [RPAREN]) = lit "{}"
  /\ calculate_ted E (PyStr s1) (PyStr s2) (PyInt 0)
     = ([EvPipeline s1; EvPipeline s2;
         EvFromString (str_parse_tree E p1); EvFromString (str_parse_tree E p2);
         EvFromText (lit "{}"); EvFromText (lit "{}"); EvDistance a a],
        Ok 0).
Proof.
  assert (Hclean : forall l, strippable l = true ->
            clean_string ([LPAREN] ++ l ++ [SPACE] ++ [RPAREN]) = lit "{}").
  { intros l Hl. unfold strippable in Hl.
    assert (Hne : l <> []) by (destruct l; discriminate).
    assert (Hlab : forallb is_label_char l = true) by (destruct l; [discriminate | exact Hl]).
    unfold clean_string. cbv zeta. rewrite strip_is_filter.
    change ([LPAREN] ++ l ++ [SPACE] ++ [RPAREN])
      with ([] ++ LPAREN :: l ++ SPACE :: [RPAREN]).
    rewrite (@sub_label_removes [] l [RPAREN] Hne Hlab). reflexivity. }
  split; [apply render_at_limit; assumption|].
  split; [apply Hclean; assumption|].
  rewrite (@calculate_ted_run E s1 s2 (PyInt 0) p1 p2 o1 o2 (Tree l1 cs1) (Tree l2 cs2)
             ([LPAREN] ++ l1 ++ [SPACE] ++ [RPAREN])
             ([LPAREN] ++ l2 ++ [SPACE] ++ [RPAREN]) a a);
    try assumption; try reflexivity.
  - rewrite !Hclean by assumption. rewrite engine_distance_self. reflexivity.
  - apply (@render_at_limit l1 cs1 0 Hh1).
  - apply (@render_at_limit l2 cs2 0 Hh2).
  - rewrite Hclean by assumption. exact Hskel.
  - rewrite Hclean by assumption. exact Hskel.
Qed.

Lemma depth_zero_distance_is_zero_witness :
  nltk_tree_to_n_bracket_string t_ab (PyInt 0) 0
  = Ok ([LPAREN] ++ lit "S" ++ [SPACE] ++ [RPAREN])
  /\ clean_string ([LPAREN] ++ lit "S" ++ [SPACE] ++ [RPAREN]) = lit "{}"
  /\ calculate_ted Sample.collaborators (PyStr (lit "a b")) (PyStr (lit "a c")) (PyInt 0)
     = ([EvPipeline (lit "a b"); EvPipeline (lit "a c");
         EvFromString (lit "(S (NP (DT a)) (VP (V b)))");
         EvFromString (lit "(S (NP (DT a)) (VP (V c)))");
         EvFromText (lit "{}"); EvFromText (lit "{}");
         EvDistance (ANode [] []) (ANode [] [])],
        Ok 0).
Proof.
  apply (@depth_zero_distance_is_zero Sample.collaborators
           (lit "a b") (lit "a c") t_ab t_ac [] []
           (lit "S") (lit "S")
           [Tree (lit "NP") [Tree (lit "DT") [Leaf (lit "a")]];
            Tree (lit "VP") [Tree (lit "V") [Leaf (lit "b")]]]
           [Tree (lit "NP") [Tree (lit "DT") [Leaf (lit "a")]];
            Tree (lit "VP") [Tree (lit "V") [Leaf (lit "c")]]]
           (ANode [] [])).
  - simpl; lia.
  - simpl; lia.
  - reflexivity.
  - reflexivity.
  - reflexivity.
  - reflexivity.
  - reflexivity.
  - reflexivity.
  - reflexivity.
Defined.

Section TraceFacts.

Variable E : Collaborators.

(** The calls of a run are an initial part of the calls of a complete
    run, and all of them exactly when the run returns a distance. *)
Lemma calculate_ted_trace (sent1 sent2 depth : pyval) :
  List.map kind_of (calls (calculate_ted E sent1 sent2 depth))
  = firstn (length (calls (calculate_ted E sent1 sent2 depth))) complete_run
  /\ is_ok (outcome (calculate_ted E sent1 sent2 depth))
     = Nat.eqb (length (calls (calculate_ted E sent1 sent2 depth))) 7.
Proof.
  unfold calculate_ted, get_constituency_tree, lift, call, ret.
  destruct (check_arguments sent1 sent2 depth) as [[]|]; [|split; reflexivity].
  rewrite bind_ok.
  destruct (sentence_of sent1) as [s1|]; [|split; reflexivity].
  rewrite bind_ok.
  destruct (sentence_of sent2) as [s2|]; [|split; reflexivity].
  rewrite bind_ok.
  destruct (nlp E s1) as [[|p1 o1]|]; try (split; reflexivity).
  rewrite bind_ok.
  destruct (nlp E s2) as [[|p2 o2]|]; try (split; reflexivity).
  rewrite bind_ok. cbv zeta.
  destruct (fromstring E (str_parse_tree E p1)) as [t1|]; [|split; reflexivity].
  rewrite bind_ok.
  destruct (fromstring E (str_parse_tree E p2)) as [t2|]; [|split; reflexivity].
  rewrite bind_ok.
  destruct (tree_string_of E t1 (max_depth_of depth)) as [ts1|]; [|split; reflexivity].
  rewrite bind_ok.
  destruct (tree_string_of E t2 (max_depth_of depth)) as [ts2|]; [|split; reflexivity].
  rewrite bind_ok.
  destruct (from_text E (clean_string ts1)) as [a1|]; [|split; reflexivity].
  rewrite bind_ok.
  destruct (from_text E (clean_string ts2)) as [a2|]; [|split; reflexivity].
  rewrite !bind_ok. split; reflexivity.
Qed.

End TraceFacts.

(** X12.  [calculate_ted] makes its calls in one fixed order and makes
    none twice: the calls of any run are an initial part of pipeline,
    pipeline, NLTK parse, NLTK parse, [from_text], [from_text], engine;
    there are at most 7, and all 7 exactly when the run returns a
    distance. *)
Theorem calls_follow_one_order
        (E : Collaborators) (sent1 sent2 depth : pyval) :
  List.map kind_of (calls (calculate_ted E sent1 sent2 depth))
  = firstn (length (calls (calculate_ted E sent1 sent2 depth))) complete_run
  /\ length (calls (calculate_ted E sent1 sent2 depth)) <= 7
  /\ is_ok (outcome (calculate_ted E sent1 sent2 depth))
     = Nat.eqb (length (calls (calculate_ted E sent1 sent2 depth))) 7.
Proof.
  destruct (calculate_ted_trace E sent1 sent2 depth) as [Hprefix Hok].
  split; [exact Hprefix|]. split; [|exact Hok].
  apply (f_equal (@length kind)) in Hprefix.
  rewrite length_map, length_firstn in Hprefix.
  change (length complete_run) with 7 in Hprefix. lia.
Qed.

(** X13.  When the pipeline finds no sentence in a text, the three
    accessors raise [IndexError] after their one call of the pipeline,
    and so does [calculate_ted]: with the text as first sentence the
    second sentence is never parsed, with the text as second sentence
    nothing is called after its parse. *)
Theorem no_sentence_raises_index_error
        (E : Collaborators) (s s' : pystr) (depth : pyval)
        (p : ParseTree E) (o : list (ParseTree E))
        (Hargs : check_arguments (PyStr s) (PyStr s') depth = Ok tt)
        (Hempty : nlp E s = Ok [])
        (Hother : nlp E s' = Ok (p :: o)) :
  get_constituency_tree E s = ([EvPipeline s], Err IndexError)
  /\ get_nltk_tree E s = ([EvPipeline s], Err IndexError)
  /\ get_bracketed_string E s = ([EvPipeline s], Err IndexError)
  /\ calculate_ted E (PyStr s) (PyStr s') depth = ([EvPipeline s], Err IndexError)
  /\ calculate_ted E (PyStr s') (PyStr s) depth
     = ([EvPipeline s'; EvPipeline s], Err IndexError).
Proof.
  assert (Hargs' : check_arguments (PyStr s') (PyStr s) depth = Ok tt).
  { apply check_arguments_ok in Hargs as (_ & _ & Hd).
    apply check_arguments_ok. repeat split; assumption. }
  pose proof (get_constituency_tree_empty E s Hempty) as Hg.
  split; [exact Hg|]. split; [exact Hg|].
  split; [unfold get_bracketed_string; rewrite Hg; reflexivity|].
  split.
  - unfold calculate_ted, lift. rewrite Hargs, bind_ok. cbn [sentence_of].
    rewrite !bind_ok, Hg. reflexivity.
  - unfold calculate_ted, lift. rewrite Hargs', bind_ok. cbn [sentence_of].
    rewrite !bind_ok, (get_constituency_tree_ok _ _ Hother), bind_ok, Hg.
    reflexivity.
Qed.

Lemma no_sentence_raises_index_error_witness :
  get_constituency_tree Sample.collaborators (lit "") = ([EvPipeline (lit "")], Err IndexError)
  /\ get_nltk_tree Sample.collaborators (lit "") = ([EvPipeline (lit "")], Err IndexError)
  /\ get_bracketed_string Sample.collaborators (lit "")
     = ([EvPipeline (lit "")], Err IndexError)
  /\ calculate_ted Sample.collaborators (PyStr (lit "")) (PyStr (lit "a b")) (PyInt 2)
     = ([EvPipeline (lit "")], Err IndexError)
  /\ calculate_ted Sample.collaborators (PyStr (lit "a b")) (PyStr (lit "")) (PyInt 2)
     = ([EvPipeline (lit "a b"); EvPipeline (lit "")], Err IndexError).
Proof.
  apply (@no_sentence_raises_index_error Sample.collaborators
           (lit "") (lit "a b") (PyInt 2) t_ab []); reflexivity.
Defined.

(** X14.  A sentence that is not a str makes [calculate_ted] raise
    [TypeError] without any call, whatever the depth is. *)
Theorem non_string_sentence_rejected
        (E : Collaborators) (sent1 sent2 depth : pyval)
        (Hsent : isinstance_str sent1 = false \/ isinstance_str sent2 = false) :
  calculate_ted E sent1 sent2 depth = ([], Err TypeError).
Proof.
  unfold calculate_ted, lift.
  assert (Hc : check_arguments sent1 sent2 depth = Err TypeError).
  { unfold check_arguments. destruct Hsent as [-> | ->]; cbn [negb orb].
    - reflexivity.
    - rewrite orb_true_r. reflexivity. }
  rewrite Hc. reflexivity.
Qed.

Lemma non_string_sentence_rejected_witness :
  calculate_ted Sample.collaborators (PyInt 5) (PyStr (lit "a b")) (PyStr (lit "full"))
  = ([], Err TypeError).
Proof.
  apply (@non_string_sentence_rejected Sample.collaborators
           (PyInt 5) (PyStr (lit "a b")) (PyStr (lit "full"))).
  left. reflexivity.
Defined.

(** X15.  [get_bracketed_string] calls the pipeline once; a string it
    returns has no parenthesis and no white space, and cleaning it again
    with [clean_string] gives the same string. *)
Theorem bracketed_string_is_clean
        (E : Collaborators) (sentence b : pystr)
        (Hok : outcome (get_bracketed_string E sentence) = Ok b) :
  calls (get_bracketed_string E sentence) = [EvPipeline sentence]
  /\ forallb (fun c => negb (N.eqb c LPAREN) && negb (N.eqb c RPAREN)
                       && negb (is_space c)) b = true
  /\ clean_string b = b.
Proof.
  unfold get_bracketed_string in *.
  rewrite calls_bind, get_constituency_tree_calls.
  rewrite outcome_bind in Hok.
  destruct (outcome (get_constituency_tree E sentence)) as [tree|] eqn:Ht;
    [|discriminate].
  cbv zeta in Hok. cbn [outcome ret snd] in Hok.
  assert (Hb : b = clean_string (str_parse_tree E tree)) by (unfold clean_string; congruence).
  split; [reflexivity|]. subst b. split.
  - apply forallb_forall. intros c Hin.
    apply clean_string_chars in Hin as (H1 & H2 & H3).
    apply N.eqb_neq in H1, H2. rewrite H1, H2, H3. reflexivity.
  - apply clean_string_fixed. apply clean_string_chars.
Qed.

Lemma bracketed_string_is_clean_witness :
  calls (get_bracketed_string Sample.collaborators (lit "a b")) = [EvPipeline (lit "a b")]
  /\ forallb (fun c => negb (N.eqb c LPAREN) && negb (N.eqb c RPAREN)
                       && negb (is_space c)) (lit "{{{a}}{{b}}}") = true
  /\ clean_string (lit "{{{a}}{{b}}}") = lit "{{{a}}{{b}}}".
Proof.
  apply (@bracketed_string_is_clean Sample.collaborators (lit "a b") (lit "{{{a}}{{b}}}")).
  reflexivity.
Defined.

(** X16.  In the ['full'] mode [calculate_ted] compares the strings that
    [get_bracketed_string] returns for the two sentences, provided NLTK
    prints each tree it has read as the pipeline printed it. *)
Theorem full_mode_compares_bracketed_strings
        (E : Collaborators) (s1 s2 : pystr)
        (p1 p2 : ParseTree E) (o1 o2 : list (ParseTree E))
        (t1 t2 : nltk) (a1 a2 : atree)
        (Hnlp1 : nlp E s1 = Ok (p1 :: o1))
        (Hnlp2 : nlp E s2 = Ok (p2 :: o2))
        (Htree1 : fromstring E (str_parse_tree E p1) = Ok t1)
        (Htree2 : fromstring E (str_parse_tree E p2) = Ok t2)
        (Hprint1 : str_nltk E t1 = str_parse_tree E p1)
        (Hprint2 : str_nltk E t2 = str_parse_tree E p2)
        (Hread1 : from_text E (clean_string (str_parse_tree E p1)) = Ok a1)
        (Hread2 : from_text E (clean_string (str_parse_tree E p2)) = Ok a2) :
  get_bracketed_string E s1
  = ([EvPipeline s1], Ok (clean_string (str_parse_tree E p1)))
  /\ get_bracketed_string E s2
     = ([EvPipeline s2], Ok (clean_string (str_parse_tree E p2)))
  /\ calculate_ted E (PyStr s1) (PyStr s2) (PyStr (lit "full"))
     = ([EvPipeline s1; EvPipeline s2;
         EvFromString (str_parse_tree E p1); EvFromString (str_parse_tree E p2);
         EvFromText (clean_string (str_parse_tree E p1));
         EvFromText (clean_string (str_parse_tree E p2));
         EvDistance a1 a2],
        Ok (compute_edit_distance a1 a2)).
Proof.
  assert (Hclean : forall x, clean_string (clean_string x) = clean_string x).
  { intros x. apply clean_string_fixed. apply clean_string_chars. }
  split; [|split].
  - unfold get_bracketed_string.
    rewrite (get_constituency_tree_ok _ _ Hnlp1), bind_ok. reflexivity.
  - unfold get_bracketed_string.
    rewrite (get_constituency_tree_ok _ _ Hnlp2), bind_ok. reflexivity.
  - rewrite (@calculate_ted_run E s1 s2 (PyStr (lit "full")) p1 p2 o1 o2 t1 t2
               (clean_string (str_parse_tree E p1))
               (clean_string (str_parse_tree E p2)) a1 a2);
      try assumption; try reflexivity.
    + rewrite !Hclean. reflexivity.
    + change (Ok (clean_string (str_nltk E t1)) = Ok (clean_string (str_parse_tree E p1))).
      rewrite Hprint1. reflexivity.
    + change (Ok (clean_string (str_nltk E t2)) = Ok (clean_string (str_parse_tree E p2))).
      rewrite Hprint2. reflexivity.
    + rewrite Hclean. exact Hread1.
    + rewrite Hclean. exact Hread2.
Qed.

Lemma full_mode_compares_bracketed_strings_witness :
  get_bracketed_string Sample.collaborators (lit "a b")
  = ([EvPipeline (lit "a b")], Ok (clean_string (lit "(S (NP (DT a)) (VP (V b)))")))
  /\ get_bracketed_string Sample.collaborators (lit "a c")
     = ([EvPipeline (lit "a c")], Ok (clean_string (lit "(S (NP (DT a)) (VP (V c)))")))
  /\ calculate_ted Sample.collaborators (PyStr (lit "a b")) (PyStr (lit "a c"))
                   (PyStr (lit "full"))
     = ([EvPipeline (lit "a b"); EvPipeline (lit "a c");
         EvFromString (lit "(S (NP (DT a)) (VP (V b)))");
         EvFromString (lit "(S (NP (DT a)) (VP (V c)))");
         EvFromText (clean_string (lit "(S (NP (DT a)) (VP (V b)))"));
         EvFromText (clean_string (lit "(S (NP (DT a)) (VP (V c)))"));
         EvDistance (ANode [] [ANode [] [ANode (lit "a") []];
                               ANode [] [ANode (lit "b") []]])
                    (ANode [] [ANode [] [ANode (lit "a") []];
                               ANode [] [ANode (lit "c") []]])],
        Ok (compute_edit_distance
              (ANode [] [ANode [] [ANode (lit "a") []]; ANode [] [ANode (lit "b") []]])
              (ANode [] [ANode [] [ANode (lit "a") []]; ANode [] [ANode (lit "c") []]]))).
Proof.
  apply (@full_mode_compares_bracketed_strings Sample.collaborators
           (lit "a b") (lit "a c") t_ab t_ac [] [] t_ab t_ac
           (ANode [] [ANode [] [ANode (lit "a") []]; ANode [] [ANode (lit "b") []]])
           (ANode [] [ANode [] [ANode (lit "a") []]; ANode [] [ANode (lit "c") []]]));
    reflexivity.
Defined.

(** X17.  With a non-negative int as depth, and trees with strippable
    labels, clean tokens and no stray token, [calculate_ted] hands
    [from_text] the brace skeletons of the two trees under that limit and
    returns the distance of what [from_text] makes of them. *)
Theorem limited_mode_compares_skeletons
        (E : Collaborators) (s1 s2 : pystr) (d : Z)
        (p1 p2 : ParseTree E) (o1 o2 : list (ParseTree E))
        (t1 t2 : nltk) (a1 a2 : atree)
        (Hd : (0 <= d)%Z)
        (Hnlp1 : nlp E s1 = Ok (p1 :: o1))
        (Hnlp2 : nlp E s2 = Ok (p2 :: o2))
        (Htree1 : fromstring E (str_parse_tree E p1) = Ok t1)
        (Htree2 : fromstring E (str_parse_tree E p2) = Ok t2)
        (Hplain1 : plain_tree t1 = true) (Hplain2 : plain_tree t2 = true)
        (Hstray1 : no_stray_token t1 = true) (Hstray2 : no_stray_token t2 = true)
        (Hread1 : from_text E (skeleton t1 (PyInt d) 0) = Ok a1)
        (Hread2 : from_text E (skeleton t2 (PyInt d) 0) = Ok a2) :
  calculate_ted E (PyStr s1) (PyStr s2) (PyInt d)
  = ([EvPipeline s1; EvPipeline s2;
      EvFromString (str_parse_tree E p1); EvFromString (str_parse_tree E p2);
      EvFromText (skeleton t1 (PyInt d) 0); EvFromText (skeleton t2 (PyInt d) 0);
      EvDistance a1 a2],
     Ok (compute_edit_distance a1 a2)).
Proof.
  destruct (render_limited_ok t1 Hstray1 d 0) as [r1 Hr1].
  destruct (render_limited_ok t2 Hstray2 d 0) as [r2 Hr2].
  pose proof (clean_render_skeleton t1 (PyInt d) 0 Hplain1 Hr1) as Hk1.
  pose proof (clean_render_skeleton t2 (PyInt d) 0 Hplain2 Hr2) as Hk2.
  rewrite (@calculate_ted_run E s1 s2 (PyInt d) p1 p2 o1 o2 t1 t2 r1 r2 a1 a2);
    try assumption.
  - rewrite Hk1, Hk2. reflexivity.
  - apply check_arguments_ok. repeat split. right. exists d. split; [reflexivity | exact Hd].
  - rewrite Hk1. exact Hread1.
  - rewrite Hk2. exact Hread2.
Qed.

Lemma limited_mode_compares_skeletons_witness :
  calculate_ted Sample.collaborators (PyStr (lit "a b")) (PyStr (lit "a c")) (PyInt 2)
  = ([EvPipeline (lit "a b"); EvPipeline (lit "a c");
      EvFromString (lit "(S (NP (DT a)) (VP (V b)))");
      EvFromString (lit "(S (NP (DT a)) (VP (V c)))");
      EvFromText (skeleton t_ab (PyInt 2) 0); EvFromText (skeleton t_ac (PyInt 2) 0);
      EvDistance (ANode [] [ANode [] [ANode (lit "a") []]; ANode [] [ANode (lit "b") []]])
                 (ANode [] [ANode [] [ANode (lit "a") []]; ANode [] [ANode (lit "c") []]])],
     Ok (compute_edit_distance
           (ANode [] [ANode [] [ANode (lit "a") []]; ANode [] [ANode (lit "b") []]])
           (ANode [] [ANode [] [ANode (lit "a") []]; ANode [] [ANode (lit "c") []]]))).
Proof.
  apply (@limited_mode_compares_skeletons Sample.collaborators
           (lit "a b") (lit "a c") 2 t_ab t_ac [] [] t_ab t_ac
           (ANode [] [ANode [] [ANode (lit "a") []]; ANode [] [ANode (lit "b") []]])
           (ANode [] [ANode [] [ANode (lit "a") []]; ANode [] [ANode (lit "c") []]]));
    try reflexivity.
  lia.
Defined.

(** ** Cleaning in place, and the validation of [calculate_ted] *)

Section CleanFacts.

Lemma replace_is_to_brace (l : pystr) :
  replace_char LPAREN LBRACE (replace_char RPAREN RBRACE l) = List.map to_brace l.
Proof.
  unfold replace_char. rewrite map_map. apply map_ext. intros c.
  unfold to_brace.
  destruct (N.eqb_spec c RPAREN) as [->|Hr]; [reflexivity|].
  destruct (N.eqb c LPAREN); reflexivity.
Qed.

(** Without a character of [A-Z] and [$] nothing matches the label
    pattern. *)
Lemma sub_label_no_label_char (u : pystr) :
  forallb (fun c => negb (is_label_char c)) u = true ->
  re_sub match_label [LPAREN] u = u.
Proof.
  unfold re_sub. induction u as [|c r IH]; intros H; [reflexivity|].
  cbn [forallb] in H. apply andb_true_iff in H as [_ Hr].
  cbn [re_sub_from].
  assert (Hm : match_label (c :: r) = None).
  { unfold match_label. destruct (N.eqb c LPAREN); [|reflexivity].
    destruct r as [|d r']; [reflexivity|].
    cbn [forallb] in Hr. apply andb_true_iff in Hr as [Hd _].
    apply negb_true_iff in Hd. cbn [run_length]. rewrite Hd. reflexivity. }
  rewrite Hm. f_equal. apply IH. exact Hr.
Qed.

End CleanFacts.

(** C8.  [clean_string] yields a string without parenthesis and without
    white space by replacing in place: its result is the stripped string
    with every [(] turned into [{] and every [)] into [}] where it
    stands.  The stripped string is the input with characters left out,
    in their order; no character other than white space and [A-Z], [$]
    is left out, so every parenthesis is kept and gets its brace.  On a
    text without [A-Z] and [$] the result is exactly the text with the
    white space removed and the parentheses replaced. *)
Theorem clean_string_replaces_in_place
        (s u : pystr) (x : char)
        (Hlabel : is_label_char x = false) (Hspace : is_space x = false)
        (Hu : forallb (fun c => negb (is_label_char c)) u = true) :
  forallb (fun c => negb (N.eqb c LPAREN) && negb (N.eqb c RPAREN)
                    && negb (is_space c)) (clean_string s) = true
  /\ clean_string s = List.map to_brace (remove_non_terminal_labels s)
  /\ subseq (remove_non_terminal_labels s) s
  /\ count_occ N.eq_dec (remove_non_terminal_labels s) x = count_occ N.eq_dec s x
  /\ count_occ N.eq_dec (clean_string s) LBRACE
     = count_occ N.eq_dec s LBRACE + count_occ N.eq_dec s LPAREN
  /\ count_occ N.eq_dec (clean_string s) RBRACE
     = count_occ N.eq_dec s RBRACE + count_occ N.eq_dec s RPAREN
  /\ clean_string u = List.map to_brace (filter no_space u).
Proof.
  destruct (clean_string_counts s) as (Hchars & Hopen & Hclose).
  split; [exact Hchars|].
  split; [unfold clean_string; cbv zeta; apply replace_is_to_brace|].
  split.
  { rewrite strip_is_filter.
    eapply subseq_trans; [apply subseq_filter | apply sub_label_subseq]. }
  split.
  { rewrite strip_is_filter, filter_no_space_count by assumption.
    apply re_sub_label_count; [assumption|]. intros ->. discriminate. }
  split; [exact Hopen|]. split; [exact Hclose|].
  unfold clean_string. cbv zeta.
  rewrite replace_is_to_brace, strip_is_filter, sub_label_no_label_char by assumption.
  reflexivity.
Qed.

Lemma clean_string_replaces_in_place_witness :
  forallb (fun c => negb (N.eqb c LPAREN) && negb (N.eqb c RPAREN)
                    && negb (is_space c)) (clean_string (lit "(S (NP the cat))")) = true
  /\ clean_string (lit "(S (NP the cat))")
     = List.map to_brace (remove_non_terminal_labels (lit "(S (NP the cat))"))
  /\ subseq (remove_non_terminal_labels (lit "(S (NP the cat))")) (lit "(S (NP the cat))")
  /\ count_occ N.eq_dec (remove_non_terminal_labels (lit "(S (NP the cat))")) RPAREN
     = count_occ N.eq_dec (lit "(S (NP the cat))") RPAREN
  /\ count_occ N.eq_dec (clean_string (lit "(S (NP the cat))")) LBRACE
     = count_occ N.eq_dec (lit "(S (NP the cat))") LBRACE
       + count_occ N.eq_dec (lit "(S (NP the cat))") LPAREN
  /\ count_occ N.eq_dec (clean_string (lit "(S (NP the cat))")) RBRACE
     = count_occ N.eq_dec (lit "(S (NP the cat))") RBRACE
       + count_occ N.eq_dec (lit "(S (NP the cat))") RPAREN
  /\ clean_string (lit ")a (b c(") = List.map to_brace (filter no_space (lit ")a (b c(")).
Proof.
  apply (@clean_string_replaces_in_place (lit "(S (NP the cat))") (lit ")a (b c(") RPAREN);
    reflexivity.
Defined.

Example clean_in_place : clean_string (lit ")a (b c(") = lit "}a{bc{".
Proof. reflexivity. Qed.

Section ValidationFacts.

Variable E : Collaborators.

Lemma check_arguments_err (sent1 sent2 depth : pyval) :
  check_arguments sent1 sent2 depth = Err TypeError <->
  isinstance_str sent1 = false \/ isinstance_str sent2 = false \/
  (isinstance_str depth = false /\ isinstance_int depth = false) \/
  (exists z, depth = PyInt z /\ (z < 0)%Z).
Proof.
  unfold check_arguments.
  destruct sent1 as [|z1|x1|], sent2 as [|z2|x2|], depth as [|z|d|]; simpl;
    try (split; [intros _; auto | reflexivity]);
    try (split; [intros _; right; right; left; auto | reflexivity]).
  - destruct (Z.ltb_spec z 0) as [Hlt|Hge].
    + split; [|reflexivity]. intros _. right; right; right. exists z; auto.
    + split; [discriminate|].
      intros [H|[H|[[_ H]|(z' & H & Hz)]]]; try discriminate.
      injection H as <-. lia.
  - split; [discriminate|].
    intros [H|[H|[[H _]|(z' & H & _)]]]; discriminate.
Qed.

(** A run whose arguments pass the checks goes on to the pipeline with
    the first sentence. *)
Lemma calculate_ted_starts (sent1 sent2 depth : pyval) :
  check_arguments sent1 sent2 depth = Ok tt ->
  exists s rest,
    sent1 = PyStr s /\
    calls (calculate_ted E sent1 sent2 depth) = EvPipeline s :: rest.
Proof.
  intros Hc. pose proof Hc as Hc'.
  apply check_arguments_ok in Hc' as (H1 & H2 & _).
  destruct sent1 as [| |s1|]; try discriminate.
  destruct sent2 as [| |s2|]; try discriminate.
  exists s1. unfold calculate_ted, lift. rewrite Hc, bind_ok. cbn [sentence_of].
  rewrite !bind_ok. cbn [calls fst app]. rewrite calls_bind.
  rewrite get_constituency_tree_calls. cbn [app].
  eexists. split; reflexivity.
Qed.

End ValidationFacts.

(** C10.  The validation of [calculate_ted] raises [TypeError], with
    nothing called, exactly when [sent1] or [sent2] is not a str, or
    [depth] is neither a str nor an int, or [depth] is a negative int; a
    run that is not stopped there goes on to parse the first sentence.
    Every str passes as [depth], ['full'] or not.  A str other than
    ['full'] is the [max_depth] of the depth-limited rendering: the run
    ends, after both sentences are parsed and read, in the [TypeError]
    that [nltk_tree_to_n_bracket_string] raises for that [max_depth]. *)
Theorem calculate_ted_validation
        (E : Collaborators) (sent1 sent2 depth : pyval)
        (a b x d s1 s2 : pystr)
        (p1 p2 : ParseTree E) (o1 o2 : list (ParseTree E)) (t1 t2 : nltk)
        (Hd : d <> lit "full")
        (Hnlp1 : nlp E s1 = Ok (p1 :: o1))
        (Hnlp2 : nlp E s2 = Ok (p2 :: o2))
        (Htree1 : fromstring E (str_parse_tree E p1) = Ok t1)
        (Htree2 : fromstring E (str_parse_tree E p2) = Ok t2) :
  (calculate_ted E sent1 sent2 depth = ([], Err TypeError) <->
   isinstance_str sent1 = false \/ isinstance_str sent2 = false \/
   (isinstance_str depth = false /\ isinstance_int depth = false) \/
   (exists z, depth = PyInt z /\ (z < 0)%Z))
  /\ (calculate_ted E sent1 sent2 depth = ([], Err TypeError) \/
      exists s rest, sent1 = PyStr s /\
                     calls (calculate_ted E sent1 sent2 depth) = EvPipeline s :: rest)
  /\ (exists rest,
        calls (calculate_ted E (PyStr a) (PyStr b) (PyStr x)) = EvPipeline a :: rest)
  /\ max_depth_of (PyStr d) = PyStr d
  /\ nltk_tree_to_n_bracket_string t1 (PyStr d) 0 = Err TypeError
  /\ calculate_ted E (PyStr s1) (PyStr s2) (PyStr d)
     = ([EvPipeline s1; EvPipeline s2;
         EvFromString (str_parse_tree E p1); EvFromString (str_parse_tree E p2)],
        Err TypeError).
Proof.
  assert (Hstop : check_arguments sent1 sent2 depth = Err TypeError ->
                  calculate_ted E sent1 sent2 depth = ([], Err TypeError)).
  { intros Hc. unfold calculate_ted, lift. rewrite Hc. reflexivity. }
  split; [|split; [|split; [|split; [|split]]]].
  - split.
    + intros Hrun.
      destruct (check_arguments_cases sent1 sent2 depth) as [Hok|Herr].
      * destruct (calculate_ted_starts E _ _ _ Hok) as (s & rest & _ & Hcalls).
        rewrite Hrun in Hcalls. discriminate Hcalls.
      * apply check_arguments_err. exact Herr.
    + intros Hcond. apply Hstop. apply check_arguments_err. exact Hcond.
  - destruct (check_arguments_cases sent1 sent2 depth) as [Hok|Herr].
    + right. apply calculate_ted_starts. exact Hok.
    + left. apply Hstop. exact Herr.
  - destruct (@calculate_ted_starts E (PyStr a) (PyStr b) (PyStr x) eq_refl)
      as (s & rest & Hs & Hcalls).
    injection Hs as <-. exists rest. exact Hcalls.
  - apply max_depth_of_str. exact Hd.
  - apply render_str_limit.
  - apply (@calculate_ted_render_error E s1 s2 (PyStr d) p1 p2 o1 o2 t1 t2);
      try assumption; try reflexivity.
    rewrite (max_depth_of_str Hd).
    destruct d as [|c d]; apply render_str_limit.
Qed.

Lemma calculate_ted_validation_witness :
  (calculate_ted Sample.collaborators (PyStr (lit "a b")) PyNone (PyInt 2)
   = ([], Err TypeError) <->
   isinstance_str (PyStr (lit "a b")) = false \/ isinstance_str PyNone = false \/
   (isinstance_str (PyInt 2) = false /\ isinstance_int (PyInt 2) = false) \/
   (exists z, PyInt 2 = PyInt z /\ (z < 0)%Z))
  /\ (calculate_ted Sample.collaborators (PyStr (lit "a b")) PyNone (PyInt 2)
      = ([], Err TypeError) \/
      exists s rest, PyStr (lit "a b") = PyStr s /\
                     calls (calculate_ted Sample.collaborators (PyStr (lit "a b"))
                                          PyNone (PyInt 2)) = EvPipeline s :: rest)
  /\ (exists rest,
        calls (calculate_ted Sample.collaborators (PyStr (lit "a b"))
                             (PyStr (lit "a c")) (PyStr (lit "full")))
        = EvPipeline (lit "a b") :: rest)
  /\ max_depth_of (PyStr (lit "abc")) = PyStr (lit "abc")
  /\ nltk_tree_to_n_bracket_string t_ab (PyStr (lit "abc")) 0 = Err TypeError
  /\ calculate_ted Sample.collaborators (PyStr (lit "a b")) (PyStr (lit "a c"))
                   (PyStr (lit "abc"))
     = ([EvPipeline (lit "a b"); EvPipeline (lit "a c");
         EvFromString (lit "(S (NP (DT a)) (VP (V b)))");
         EvFromString (lit "(S (NP (DT a)) (VP (V c)))")],
        Err TypeError).
Proof.
  apply (@calculate_ted_validation Sample.collaborators
           (PyStr (lit "a b")) PyNone (PyInt 2)
           (lit "a b") (lit "a c") (lit "full") (lit "abc") (lit "a b") (lit "a c")
           t_ab t_ac [] [] t_ab t_ac).
  - discriminate.
  - reflexivity.
  - reflexivity.
  - reflexivity.
  - reflexivity.
Defined.
